(** * NAT UI manager: a shallow embedding of [simple_workflow/helpers/ui_manager.py]

    The development follows the Python source of [UIManager]: Python [str]
    values are byte strings, the [env_vars] dict is an insertion-ordered
    association list, the captured-output buffer is a list of lines, and
    [start()]/[stop()] are programs of a small state-and-exception monad
    whose answers from the operating system come from an explicit [World].

    Time is not modelled: a poll loop bounded by a timeout receives the
    list of probe results obtained before the timeout elapsed. The two
    capture threads run concurrently with [start()]; the lines they
    append between two actions of the foreground are batches of arrivals
    supplied by the [World]. Exceptions are those of class [Exception],
    and one that is not: the [KeyboardInterrupt] that [input()] raises
    when the prompt of the port check is answered with Ctrl+C. A signal
    that arrives at another point of [start()] is outside the model. *)

From Stdlib Require Import Bool Ascii String List Arith NArith ZArith Lia.
From Stdlib Require Import DecimalString.
Import ListNotations.

Local Open Scope list_scope.
Local Open Scope string_scope.

(** ** Python string operations *)

Module PyStr.

(** [str.isspace] on the ASCII range: TAB, LF, VT, FF, CR, FS, GS, RS, US
    and SPACE. *)
Definition is_space (c : ascii) : bool :=
  let n := nat_of_ascii c in
  ((9 <=? n)%nat && (n <=? 13)%nat) || ((28 <=? n)%nat && (n <=? 32)%nat).

(** [str.lower] on the ASCII range. *)
Definition lower_char (c : ascii) : ascii :=
  let n := nat_of_ascii c in
  if (65 <=? n)%nat && (n <=? 90)%nat then ascii_of_nat (n + 32) else c.

Fixpoint lower (s : string) : string :=
  match s with
  | EmptyString => EmptyString
  | String c t => String (lower_char c) (lower t)
  end.

(** [s.startswith(p)] *)
Definition startswith (p s : string) : bool := String.prefix p s.

(** [needle in hay] *)
Fixpoint contains (needle hay : string) : bool :=
  String.prefix needle hay ||
  match hay with
  | EmptyString => false
  | String _ t => contains needle t
  end.

(** [any(k in s for k in keywords)] *)
Definition any_in (keywords : list string) (s : string) : bool :=
  existsb (fun k => contains k s) keywords.

(** [s.lstrip()], [s.rstrip()], [s.strip()] *)
Fixpoint lstrip (s : string) : string :=
  match s with
  | EmptyString => EmptyString
  | String c t => if is_space c then lstrip t else s
  end.

Fixpoint rstrip (s : string) : string :=
  match s with
  | EmptyString => EmptyString
  | String c t =>
      match rstrip t with
      | EmptyString => if is_space c then EmptyString else String c EmptyString
      | r => String c r
      end
  end.

Definition strip (s : string) : string := lstrip (rstrip s).


(** ['\n' not in s] *)
Fixpoint lf_free (s : string) : bool :=
  match s with
  | EmptyString => true
  | String c t => negb (Ascii.eqb c (ascii_of_nat 10)) && lf_free t
  end.

(** truthiness of a [str]: the empty string is falsy *)
Definition truthy (s : string) : bool :=
  match s with EmptyString => false | _ => true end.

(** [s.split(sep, 1)] for a one-character separator: the text before the
    first separator and, when there is one, the text after it. *)
Fixpoint split_once (sep : ascii) (s : string) : string * option string :=
  match s with
  | EmptyString => (EmptyString, None)
  | String c t =>
      if Ascii.eqb c sep then (EmptyString, Some t)
      else let (k, v) := split_once sep t in (String c k, v)
  end.

(** ['\n'.join(l)] *)
Fixpoint join (sep : string) (l : list string) : string :=
  match l with
  | [] => EmptyString
  | [x] => x
  | x :: r => x ++ sep ++ join sep r
  end.

Definition LF : ascii := ascii_of_nat 10.
Definition nl : string := String LF EmptyString.

(** Iterating over a text file: the lines, each with its terminating
    newline (the last one possibly without). The content is the decoded
    text, after the newline translation of text mode. *)
Fixpoint file_lines (s : string) : list string :=
  match s with
  | EmptyString => []
  | String c t =>
      if Ascii.eqb c LF then String c EmptyString :: file_lines t
      else match file_lines t with
           | [] => [String c EmptyString]
           | l :: ls => String c l :: ls
           end
  end.

(** [str(n)] for integers *)
Definition str_N (n : N) : string := NilZero.string_of_uint (N.to_uint n).
Definition str_nat (n : nat) : string := NilZero.string_of_uint (Nat.to_uint n).
Definition str_Z (z : Z) : string := NilZero.string_of_int (Z.to_int z).

(** The slice [l[-n:]] (for [n > 0]): the last [n] elements. *)
Definition last_n {A} (n : nat) (l : list A) : list A :=
  skipn (length l - n) l.

End PyStr.

Import PyStr.

(** ** Step 6 of [start()]: the [.env] file *)

Module Env.

(** The [env_vars] dict: Python dicts keep insertion order, and assigning to
    an existing key keeps its position. *)
Definition dict := list (string * string).

Fixpoint dict_get (k : string) (d : dict) : option string :=
  match d with
  | [] => None
  | (k', v') :: r => if String.eqb k' k then Some v' else dict_get k r
  end.

(** [k in d] *)
Definition dict_mem (k : string) (d : dict) : bool :=
  match dict_get k d with Some _ => true | None => false end.

(** [d[k] = v] *)
Fixpoint dict_set (k v : string) (d : dict) : dict :=
  match d with
  | [] => [(k, v)]
  | (k', v') :: r =>
      if String.eqb k' k then (k', v) :: r else (k', v') :: dict_set k v r
  end.

Definition keys (d : dict) : list string := map fst d.

(** The test [line and not line.startswith('#') and '=' in line] on the
    stripped line. *)
Definition accepted (line : string) : bool :=
  truthy line && negb (startswith "#" line) && contains "=" line.

(** One iteration of [for line in f]. *)
Definition parse_line (env_vars : dict) (raw : string) : dict :=
  let line := strip raw in
  if accepted line then
    match split_once "=" line with
    | (key, Some value) => dict_set (strip key) (strip value) env_vars
    | (_, None) => env_vars (* not reached: ['=' in line] holds *)
    end
  else env_vars.

(** The assignment a line leads to, if any: [parse_line] read as a
    function of the line alone. *)
Definition line_entry (raw : string) : option (string * string) :=
  let line := strip raw in
  if accepted line then
    match split_once "=" line with
    | (key, Some value) => Some (strip key, strip value)
    | (_, None) => None
    end
  else None.

Definition env_from_lines (ls : list string) : dict :=
  fold_left parse_line ls [].

(** [env_vars = {}], filled from the file when [env_file.exists()]. *)
Definition read_env (env_file : option string) : dict :=
  match env_file with
  | Some content => env_from_lines (file_lines content)
  | None => []
  end.

(** nat_backend_url = f"http://localhost:{self.nat_port}" *)
Definition nat_backend_url (nat_port : N) : string :=
  "http://localhost:" ++ str_N nat_port.

(** The two assignments after reading. *)
Definition update_env (url : string) (ui_port : N) (env_vars : dict) : dict :=
  let env_vars := dict_set "NAT_BACKEND_URL" url env_vars in
  if dict_mem "PORT" env_vars then env_vars
  else dict_set "PORT" (str_N ui_port) env_vars.

(** f.write(f"{key}={value}\n") *)
Definition env_line (kv : string * string) : string :=
  fst kv ++ "=" ++ snd kv ++ nl.

Definition written_lines (env_vars : dict) : list string := map env_line env_vars.

Definition render_env (env_vars : dict) : string :=
  String.concat "" (written_lines env_vars).

(** The dict written back, and the new content of the file. *)
Definition final_env (env_file : option string) (nat_port ui_port : N) : dict :=
  update_env (nat_backend_url nat_port) ui_port (read_env env_file).

Definition configure_env (env_file : option string) (nat_port ui_port : N) : string :=
  render_env (final_env env_file nat_port ui_port).

End Env.

Import Env.

(** ** Step 7 of [start()]: the two capture threads and the output buffer *)

Module Capture.

Inductive stream := STDOUT | STDERR.

Definition tag (s : stream) : string :=
  match s with STDOUT => "[STDOUT] " | STDERR => "[STDERR] " end.

Definition stdout_keywords : list string :=
  ["ERROR:"; "error"; "Failed"; "failed"; "exited with code"].

(** Body of [with self.output_lock:]: append, then evict the oldest line
    when more than 100 are held. *)
Definition append_line (entry : string) (process_output : list string) : list string :=
  let process_output := (process_output ++ [entry])%list in
  if (100 <? length process_output)%nat then tl process_output (* pop(0) *)
  else process_output.

(** [for line in iter(stream.readline, '')] with [if not line: break]: the
    lines read up to end of stream. *)
Fixpoint until_eof (reads : list string) : list string :=
  match reads with
  | [] => []
  | line :: r => if truthy line then line :: until_eof r else []
  end.

(** What a capture thread prints for a line, and the entry it appends. *)
Definition surfaced (s : stream) (line_clean : string) : list string :=
  match s with
  | STDOUT =>
      if any_in stdout_keywords line_clean
      then ["⚠️  [STDOUT] " ++ line_clean] else []
  | STDERR => ["⚠️  [STDERR] " ++ line_clean]
  end.

Definition entry (s : stream) (line : string) : string := tag s ++ rstrip line.

Definition entries (s : stream) (reads : list string) : list string :=
  map (entry s) (until_eof reads).

(** The appends of [capture_stdout] and [capture_stderr] are serialised by
    the lock: an execution is an interleaving of the two threads' entries. *)
Inductive Interleaving {A : Type} : list A -> list A -> list A -> Prop :=
| il_nil : Interleaving [] [] []
| il_left x l r m : Interleaving l r m -> Interleaving (x :: l) r (x :: m)
| il_right x l r m : Interleaving l r m -> Interleaving l (x :: r) (x :: m).

(** The buffer after a sequence of appends, in arrival order. *)
Definition run_appends (arrivals : list string) (process_output : list string) : list string :=
  fold_left (fun buf e => append_line e buf) arrivals process_output.

End Capture.

Import Capture.

(** ** The manager, its environment and the effect monad *)

Module UI.

Definition Pid := nat.

(** A subprocess command: an argument vector, or a line for the shell
    ([shell=True]). *)
Inductive Command :=
| Argv (args : list string)
| Shell (line : string).

(** Observable actions of the manager, in program order. *)
Inductive Event :=
| Print (text : string)
| Run (cmd : Command)                  (* subprocess.run *)
| Popen (cmd : Command) (pid : Pid)    (* subprocess.Popen *)
| Connect (port : N)                   (* sock.connect_ex(('localhost', port)) *)
| Input (prompt : string)
| Sleep (seconds : nat)
| WriteEnv (content : string)
| HttpGet (url : string)
| Terminate (pid : Pid)
| Wait (pid : Pid)
| Kill (pid : Pid).

Inductive Exc :=
| RuntimeError (msg : string)
| OtherException (text : string)      (* any other [Exception]; [text] is [str(e)] *)
| KeyboardInterrupt.                  (* a [BaseException] that is no [Exception] *)

(** [isinstance(e, Exception)]: what [except Exception] catches. *)
Definition is_Exception (e : Exc) : bool :=
  match e with
  | KeyboardInterrupt => false
  | _ => true
  end.

(** What [input()] gives: a line, [EOFError] at the end of the input, or
    [KeyboardInterrupt] when the operator presses Ctrl+C at the prompt. *)
Inductive InputResult :=
| Line (text : string)
| EOFError
| Interrupted.

(** Outcome of [subprocess.run(..., check=True, timeout=...)]. *)
Inductive RunOutcome :=
| Completed
| TimeoutExpired
| CalledProcessError (stderr stdout : option string) (returncode : Z).

(** Outcome of [urllib.request.urlopen]. [HttpStatus code]: the call
    returns a response and [getcode()] is [code]. [HttpError text]: the
    call raises and [str(e)] is [text]; this is the case of a refused
    connection and of a timeout, and also of every reply whose status is
    outside 2xx (a 404 among them), for which the opener raises
    [HTTPError]. *)
Inductive HttpReply :=
| HttpStatus (code : nat)
| HttpError (text : string).

(** The fields of [self] and the [.env] file of the UI directory. *)
Record State := mkState {
  ui_path : string;
  ui_process : option Pid;
  ui_port : N;
  nat_port : N;
  process_output : list string;
  env_file : option string;
  trace : list Event
}.

(** The answers of the operating system, one field per call site. *)
Record World := mkWorld {
  win32 : bool;                                   (* sys.platform == "win32" *)
  which : string -> option string;                (* shutil.which *)
  version_query : Command -> bool;                (* the [--version] run exits with 0 in time *)
  nat_port_free : bool;                           (* _check_port_available(nat_port) *)
  ui_port_free : bool;
  stdin_reply : InputResult;                      (* input() *)
  kill_owner_in_time : bool;                      (* the lsof/fuser run returns within 5 s *)
  ui_port_free_after_kill : bool;
  ui_path_exists : bool;
  git_clone : RunOutcome;
  clone_error_text : string;                      (* str(e) of the clone's CalledProcessError *)
  npm_run : nat -> Command -> RunOutcome;         (* the install run of each attempt *)
  env_read_error : option string;                 (* reading .env raises *)
  env_write_error : option string;                (* writing .env raises *)
  popen : string + Pid;                           (* Popen raises, or the child's pid *)
  settle_output : list (stream * string);         (* lines captured during sleep(3) *)
  poll_settle : option Z;                         (* poll(): [None] while alive *)
  gateway_probes : list bool;                     (* _check_port_available at each poll of the wait *)
  gateway_output : list (stream * string);
  poll_gateway : option Z;
  nextjs_probes : list bool;
  compile_rounds : list (list (stream * string) * option Z);
  http_replies : nat -> HttpReply;
  poll_final : option Z;
  wait_exits : bool                               (* wait(timeout=5) returns; else TimeoutExpired *)
}.

Inductive Res (A : Type) :=
| Ok (a : A)
| Raise (e : Exc).
Arguments Ok {A} a.
Arguments Raise {A} e.

Definition M (A : Type) : Type := State -> Res A * State.

Definition ret {A} (a : A) : M A := fun s => (Ok a, s).

Definition bind {A B} (m : M A) (k : A -> M B) : M B :=
  fun s => match m s with
           | (Ok a, s') => k a s'
           | (Raise e, s') => (Raise e, s')
           end.

Definition raise {A} (e : Exc) : M A := fun s => (Raise e, s).

(** [try: m except Exception as e: h e]: an exception that is no
    [Exception] passes through. *)
Definition try_except {A} (m : M A) (h : Exc -> M A) : M A :=
  fun s => match m s with
           | (Ok a, s') => (Ok a, s')
           | (Raise e, s') => if is_Exception e then h e s' else (Raise e, s')
           end.

Definition get : M State := fun s => (Ok s, s).

Definition emit (e : Event) : M unit :=
  fun s => (Ok tt, mkState (ui_path s) (ui_process s) (ui_port s) (nat_port s)
                           (process_output s) (env_file s) (trace s ++ [e])%list).

Definition set_ui_process (p : option Pid) : M unit :=
  fun s => (Ok tt, mkState (ui_path s) p (ui_port s) (nat_port s)
                           (process_output s) (env_file s) (trace s)).

Definition set_process_output (l : list string) : M unit :=
  fun s => (Ok tt, mkState (ui_path s) (ui_process s) (ui_port s) (nat_port s)
                           l (env_file s) (trace s)).

Definition set_env_file (c : option string) : M unit :=
  fun s => (Ok tt, mkState (ui_path s) (ui_process s) (ui_port s) (nat_port s)
                           (process_output s) c (trace s)).

Declare Scope py_scope.
Delimit Scope py_scope with py.
Notation "x <- c1 ;; c2" := (bind c1 (fun x => c2))
  (at level 61, c1 at next level, right associativity) : py_scope.
Notation "c1 ;; c2" := (bind c1 (fun _ => c2))
  (at level 61, right associativity) : py_scope.
Local Open Scope py_scope.

Definition print (text : string) : M unit := emit (Print text).
Definition sleep (seconds : nat) : M unit := emit (Sleep seconds).

Definition dq : string := String (ascii_of_nat 34) EmptyString.

(** *** Helpers of the class *)

Definition _get_command_path (w : World) (command : string) : string :=
  if win32 w then
    match which w command with
    | Some cmd_path => cmd_path
    | None =>
        match which w (command ++ ".cmd") with
        | Some cmd_path => cmd_path
        | None =>
            match which w (command ++ ".bat") with
            | Some cmd_path => cmd_path
            | None => command
            end
        end
    end
  else command.

Definition version_command (w : World) (command : string) : Command :=
  if win32 w then Shell (dq ++ _get_command_path w command ++ dq ++ " --version")
  else Argv [command; "--version"].

Definition _check_command_exists (w : World) (command : string) : M bool :=
  emit (Run (version_command w command)) ;;
  ret (version_query w (version_command w command)).

(** [_check_port_available], its answer supplied by the caller's site. *)
Definition _check_port_available (port : N) (free : bool) : M bool :=
  emit (Connect port) ;; ret free.

(** [_wait_for_port]: one probe per iteration the clock allows. *)
Fixpoint wait_loop (port : N) (probes : list bool) : M bool :=
  match probes with
  | [] => ret false
  | free :: rest =>
      available <- _check_port_available port free ;;
      if negb available then ret true
      else sleep 2 ;; wait_loop port rest
  end.

Definition _wait_for_port (port : N) (probes : list bool) : M bool :=
  print ("⏳ Waiting for service on port " ++ str_N port ++ "...") ;;
  wait_loop port probes.

(** The capture threads at work while the foreground sleeps or polls. *)
Fixpoint absorb (arrivals : list (stream * string)) : M unit :=
  match arrivals with
  | [] => ret tt
  | (st, line) :: rest =>
      s <- get ;;
      fold_right (fun t k => print t ;; k) (ret tt) (surfaced st (rstrip line)) ;;
      set_process_output (append_line (entry st line) (process_output s)) ;;
      absorb rest
  end.

(** *** [stop()] *)

Definition stop (w : World) : M unit :=
  s <- get ;;
  match ui_process s with
  | Some pid =>
      print "🛑 Stopping UI server..." ;;
      emit (Terminate pid) ;;
      emit (Wait pid) ;;
      (if wait_exits w then ret tt
       else print "⚠️  Force killing UI server..." ;; emit (Kill pid)) ;;
      set_ui_process None ;;
      print "✅ UI server stopped"
  | None => ret tt
  end.

Definition get_status (poll : option Z) (s : State) : string :=
  match ui_process s with
  | None => "Not started"
  | Some pid =>
      match poll with
      | None => "Running (PID: " ++ str_nat pid ++ ")"
      | Some code => "Stopped (exit code: " ++ str_Z code ++ ")"
      end
  end.

(** *** [start()], step by step *)

(** 1. Validate prerequisites *)
Definition require_command (w : World) (command message : string) : M unit :=
  found <- _check_command_exists w command ;;
  if negb found then raise (RuntimeError message) else ret tt.

Definition check_prerequisites (w : World) : M unit :=
  print "🔍 Checking prerequisites..." ;;
  require_command w "git" "❌ git is not installed" ;;
  require_command w "node" "❌ Node.js is not installed" ;;
  require_command w "npm" "❌ npm is not installed" ;;
  print "✅ All prerequisites found".

(** 2. Verify NAT server is running *)
Definition check_nat_server (w : World) : M unit :=
  s <- get ;;
  let port := str_N (nat_port s) in
  print ("🔍 Checking NAT server on port " ++ port ++ "...") ;;
  free <- _check_port_available (nat_port s) (nat_port_free w) ;;
  if free then
    print ("⚠️  Warning: NAT server doesn't appear to be running on port " ++ port) ;;
    print "   The UI may not work properly without it"
  else print ("✅ NAT server detected on port " ++ port).

(** 3. Check if UI port is available *)
Definition kill_owner_command (port : string) : Command :=
  Shell ("lsof -ti:" ++ port ++ " | xargs kill -9 2>/dev/null || " ++
         "fuser -k " ++ port ++ "/tcp 2>/dev/null || true").

Definition check_ui_port (w : World) : M unit :=
  s <- get ;;
  let port := str_N (ui_port s) in
  free <- _check_port_available (ui_port s) (ui_port_free w) ;;
  if negb free then
    print ("⚠️  Port " ++ port ++ " is already in use") ;;
    if negb (win32 w) then
      emit (Input ("   Try to kill existing process on port " ++ port ++ "? (y/n): ")) ;;
      match stdin_reply w with
      | EOFError => raise (OtherException "EOF when reading a line")
      | Interrupted => raise KeyboardInterrupt
      | Line response =>
          if String.eqb (lower response) "y" then
            try_except
              (emit (Run (kill_owner_command port)) ;;
               (if kill_owner_in_time w then ret tt
                else raise (OtherException "timed out after 5 seconds")) ;;
               sleep 2 ;;
               free <- _check_port_available (ui_port s) (ui_port_free_after_kill w) ;;
               if negb free then raise (RuntimeError ("❌ Failed to free port " ++ port))
               else ret tt)
              (fun _ => raise (RuntimeError
                 ("❌ Port " ++ port ++ " is in use and could not be freed")))
          else ret tt
      end
    else raise (RuntimeError
           ("❌ Port " ++ port ++ " is already in use. Please stop the process using it manually."))
  else ret tt.

(** 4. Check for UI repo - use existing if found, clone if needed *)
Definition clone_command (path : string) : Command :=
  Argv ["git"; "clone"; "https://github.com/NVIDIA/NeMo-Agent-Toolkit-UI.git"; path].

Definition ensure_repository (w : World) : M unit :=
  s <- get ;;
  if negb (ui_path_exists w) then
    print "📥 Cloning NAT UI repository..." ;;
    emit (Run (clone_command (ui_path s))) ;;
    match git_clone w with
    | Completed => print "✅ UI repository cloned"
    | TimeoutExpired =>
        raise (RuntimeError "❌ Git clone timed out - check your internet connection")
    | CalledProcessError stderr _ _ =>
        let error_msg :=
          match stderr with
          | Some text => if truthy text then text else clone_error_text w
          | None => clone_error_text w
          end in
        raise (RuntimeError ("❌ Failed to clone repository: " ++ error_msg))
    end
  else print ("✅ UI repository already exists at " ++ ui_path s).

(** 5. Install dependencies with retry *)
Definition max_retries : nat := 2.

(** [x or ""] and the truth value of an optional string *)
Definition or_empty (o : option string) : string :=
  match o with Some x => x | None => EmptyString end.

Definition opt_truthy (o : option string) : bool := truthy (or_empty o).

Definition lockfile_mismatch (error_output : string) : bool :=
  contains "package-lock.json" (lower error_output) ||
  contains "lockfile" (lower error_output) ||
  contains "cannot be installed" (lower error_output).

Definition peer_conflict (error_output : string) : bool :=
  contains "eresolve" (lower error_output) ||
  contains "peer dependency" (lower error_output) ||
  contains "conflicting peer dependency" (lower error_output).

Definition install_command (w : World) (use_npm_install use_legacy_peer_deps : bool) : Command :=
  let npm_cmd := _get_command_path w "npm" in
  let install_cmd := if use_npm_install then "install" else "ci" in
  let extra_flags := if use_legacy_peer_deps then " --legacy-peer-deps" else "" in
  if win32 w then Shell (dq ++ npm_cmd ++ dq ++ " " ++ install_cmd ++ extra_flags)
  else Argv ([npm_cmd; install_cmd] ++
             (if use_legacy_peer_deps then ["--legacy-peer-deps"] else []))%list.

Definition install_error_msg (stderr stdout : option string) (returncode : Z) : string :=
  let error_msg := "❌ Failed to install dependencies:" ++ nl in
  let error_msg :=
    if opt_truthy stderr
    then error_msg ++ nl ++ "STDERR:" ++ nl ++ or_empty stderr ++ nl else error_msg in
  let error_msg :=
    if opt_truthy stdout
    then error_msg ++ nl ++ "STDOUT:" ++ nl ++ or_empty stdout ++ nl else error_msg in
  if negb (opt_truthy stderr) && negb (opt_truthy stdout) then
    error_msg ++ nl ++ "(Process exited with code " ++ str_Z returncode ++ ")" ++ nl ++
    "Try running 'npm install' manually in the NeMo-Agent-Toolkit-UI directory to see the full error." ++ nl
  else error_msg.

Definition timeout_msg : string := "❌ npm install timed out after retries".

(** The locals of the loop when it is left: the two flags, and whether it
    was left by [break] (an install run completed). *)
Record InstallEnd := mkInstallEnd {
  use_npm_install : bool;
  use_legacy_peer_deps : bool;
  installed : bool
}.

Definition retrying (what : string) (attempt : nat) : string :=
  "⚠️  Install " ++ what ++ ", retrying (" ++ str_nat (attempt + 1) ++ "/" ++
  str_nat max_retries ++ ")...".

(** [for attempt in range(max_retries)]: [continue] moves on to the next
    element of the range, and so does the end of an [except] block. *)
Fixpoint install_loop (w : World) (attempts : list nat) (npm legacy : bool)
  : M InstallEnd :=
  match attempts with
  | [] => ret (mkInstallEnd npm legacy false)
  | attempt :: rest =>
      emit (Run (install_command w npm legacy)) ;;
      match npm_run w attempt (install_command w npm legacy) with
      | Completed =>
          print "✅ Dependencies installed" ;;
          ret (mkInstallEnd npm legacy true)
      | TimeoutExpired =>
          if (attempt <? max_retries - 1)%nat then
            print (retrying "timed out" attempt) ;;
            install_loop w rest npm legacy
          else raise (RuntimeError timeout_msg)
      | CalledProcessError stderr stdout returncode =>
          let error_output := or_empty stderr ++ or_empty stdout in
          if negb npm && lockfile_mismatch error_output then
            print "⚠️  package-lock.json is out of sync, switching to 'npm install'..." ;;
            install_loop w rest true legacy
          else if negb legacy && peer_conflict error_output then
            print "⚠️  Peer dependency conflict detected, retrying with --legacy-peer-deps..." ;;
            install_loop w rest npm true
          else
            let error_msg := install_error_msg stderr stdout returncode in
            if (attempt <? max_retries - 1)%nat then
              print (retrying "failed" attempt) ;;
              print error_msg ;;
              install_loop w rest npm legacy
            else raise (RuntimeError error_msg)
      end
  end.

Definition install_dependencies (w : World) : M InstallEnd :=
  print "📦 Installing UI dependencies..." ;;
  install_loop w (seq 0 max_retries) false false.

(** 6. Configure .env file *)
Definition env_path (s : State) : string := ui_path s ++ "/.env".

Definition configure_environment (w : World) : M unit :=
  print "⚙️  Configuring environment..." ;;
  s <- get ;;
  let url := nat_backend_url (nat_port s) in
  env_vars <-
    match env_file s with
    | Some content =>
        match env_read_error w with
        | Some text => raise (OtherException text)
        | None => ret (read_env (Some content))
        end
    | None => ret (read_env None)
    end ;;
  let env_vars := update_env url (ui_port s) env_vars in
  match env_write_error w with
  | Some text => raise (OtherException text)
  | None => ret tt
  end ;;
  emit (WriteEnv (render_env env_vars)) ;;
  set_env_file (Some (render_env env_vars)) ;;
  s' <- get ;;
  match env_file s' with
  | None => raise (RuntimeError ("❌ Failed to create .env file at " ++ env_path s))
  | Some _ =>
      print ("✅ Environment configured (NAT_BACKEND_URL=" ++ url ++ ", .env at " ++
             env_path s ++ ")")
  end.

(** 7. Start UI server *)
Definition dev_command (w : World) : Command :=
  if win32 w then
    Shell ("npx concurrently --kill-others --names " ++ dq ++ "UI" ++ dq ++
           " -c " ++ dq ++ "bgBlue.bold" ++ dq ++ " --hide 1 " ++
           dq ++ "node proxy/server.js" ++ dq ++ " " ++
           dq ++ "npx next dev -p 3099" ++ dq)
  else Argv [_get_command_path w "npm"; "run"; "dev"].

Definition start_server (w : World) : M unit :=
  print "🎨 Starting UI development server..." ;;
  match popen w with
  | inl text => raise (RuntimeError ("❌ Failed to start UI server: " ++ text))
  | inr pid => emit (Popen (dev_command w) pid) ;; set_ui_process (Some pid)
  end.

(** 8. Wait for both ports to be ready *)
Definition error_keywords : list string :=
  ["ERROR:"; "error"; "Failed"; "failed"; "exited with code"; "EADDRINUSE"].

Definition crash_report (header : string) (output : list string) : string :=
  let recent_output := join nl (last_n 50 output) in
  let error_msg := header ++ nl in
  let error_msg :=
    if truthy recent_output
    then error_msg ++ nl ++ "Recent output (last 50 lines):" ++ nl ++ recent_output ++ nl
    else error_msg in
  let error_lines := filter (any_in error_keywords) output in
  match error_lines with
  | [] => error_msg
  | _ => error_msg ++ nl ++ "🔍 Error messages found:" ++ nl ++
         join nl (last_n 15 error_lines) ++ nl
  end.

Definition settle (w : World) : M unit :=
  sleep 3 ;;
  absorb (settle_output w) ;;
  match poll_settle w with
  | Some _ =>
      s <- get ;;
      raise (RuntimeError
        (crash_report "❌ UI server process exited before gateway could start:"
                      (process_output s)))
  | None => ret tt
  end.

Definition wait_gateway (w : World) : M unit :=
  s <- get ;;
  let port := str_N (ui_port s) in
  print ("⏳ Waiting for gateway on port " ++ port ++ "...") ;;
  gateway_ready <- _wait_for_port (ui_port s) (gateway_probes w) ;;
  absorb (gateway_output w) ;;
  s <- get ;;
  if gateway_ready then
    match poll_gateway w with
    | Some _ =>
        raise (RuntimeError
          ("❌ Gateway started but process exited immediately. Output:" ++ nl ++
           join nl (last_n 30 (process_output s))))
    | None => print ("✅ Gateway ready on port " ++ port)
    end
  else
    match poll_gateway w with
    | Some _ =>
        raise (RuntimeError
          (crash_report "❌ UI server crashed during startup:" (process_output s)))
    | None =>
        raise (RuntimeError
          ("❌ Gateway did not start on port " ++ port ++ " within 30 seconds"))
    end.

(** The compilation wait: one round per iteration the clock allows. *)
Definition compilation_done (recent_output : string) : bool :=
  (contains "✓ Compiled" recent_output || contains "Compiled in" recent_output) &&
  negb (contains "○ Compiling" recent_output).

Fixpoint compile_loop (rounds : list (list (stream * string) * option Z)) : M bool :=
  match rounds with
  | [] => ret false
  | (arrivals, poll) :: rest =>
      sleep 2 ;;
      absorb arrivals ;;
      s <- get ;;
      if compilation_done (join nl (last_n 10 (process_output s))) then ret true
      else match poll with
           | Some _ => ret false
           | None => compile_loop rest
           end
  end.

Definition nextjs_line (line : string) : bool :=
  contains "[1]" line || contains "next" (lower line).

Definition show_recent_output : M unit :=
  s <- get ;;
  match process_output s with
  | [] => ret tt
  | _ =>
      print (nl ++ "📋 Recent Next.js output (last 15 lines):") ;;
      match filter nextjs_line (process_output s) with
      | [] => print (join nl (last_n 15 (process_output s)))
      | nextjs_lines => print (join nl (last_n 15 nextjs_lines))
      end
  end.

Fixpoint http_loop (w : World) (attempts : list nat) : M unit :=
  match attempts with
  | [] => ret tt
  | attempt :: rest =>
      emit (HttpGet "http://localhost:3099") ;;
      match http_replies w attempt with
      | HttpStatus code =>
          if (code =? 200)%nat || (code =? 404)%nat
          then print "✅ Next.js is responding on port 3099"
          else http_loop w rest
      | HttpError text =>
          if (attempt <? 4)%nat then sleep 2 ;; http_loop w rest
          else
            print ("⚠️  Next.js not responding on port 3099: " ++ text) ;;
            print "   This may cause the gateway to show 'Next.js dev server unavailable'" ;;
            show_recent_output ;;
            http_loop w rest
      end
  end.

Definition wait_nextjs (w : World) : M unit :=
  print "⏳ Waiting for Next.js dev server on port 3099..." ;;
  nextjs_ready <- _wait_for_port 3099 (nextjs_probes w) ;;
  if nextjs_ready then
    print "✅ Next.js dev server ready on port 3099" ;;
    print "⏳ Waiting for Next.js to finish initial compilation..." ;;
    compiled <- compile_loop (compile_rounds w) ;;
    (if compiled then print "✅ Next.js compilation complete"
     else print "⚠️  Next.js may still be compiling - this is normal for first startup") ;;
    print "🔍 Verifying Next.js is responding on port 3099..." ;;
    http_loop w (seq 0 5)
  else
    print "⚠️  Warning: Next.js dev server may not be ready yet" ;;
    print "   The UI may take a moment to fully start".

(** Final process health check *)
Definition final_health_check (w : World) : M unit :=
  match poll_final w with
  | Some _ =>
      s <- get ;;
      let recent_output := join nl (last_n 30 (process_output s)) in
      let error_msg := "❌ UI server process has crashed:" ++ nl in
      raise (RuntimeError
        (if truthy recent_output
         then error_msg ++ nl ++ "Recent output (last 30 lines):" ++ nl ++ recent_output ++ nl
         else error_msg))
  | None => ret tt
  end.

(** The body of the [try] block: steps 1 to 4, then up to the spawn of the
    UI process ... *)
Definition preflight (w : World) : M unit :=
  check_prerequisites w ;;
  check_nat_server w ;;
  check_ui_port w ;;
  ensure_repository w.

Definition prepare (w : World) : M unit :=
  preflight w ;;
  install_dependencies w ;;
  configure_environment w ;;
  start_server w.

(** ... and from the settle time to [return True]. *)
Definition await_ready (w : World) : M bool :=
  settle w ;;
  wait_gateway w ;;
  wait_nextjs w ;;
  final_health_check w ;;
  s <- get ;;
  print ("✅ UI started successfully on port " ++ str_N (ui_port s)) ;;
  ret true.

Definition start_body (w : World) : M bool := prepare w ;; await_ready w.

(** The two [except] clauses. The last case is not reached: [try_except]
    hands over only what [except Exception] catches. *)
Definition on_failure (w : World) (e : Exc) : M bool :=
  match e with
  | RuntimeError msg => print msg ;; stop w ;; ret false
  | OtherException text => print ("❌ Unexpected error: " ++ text) ;; stop w ;; ret false
  | KeyboardInterrupt => raise e
  end.

Definition start (w : World) : M bool := try_except (start_body w) (on_failure w).

End UI.

Import UI.

(** ** Observations on runs *)

Module Obs.

(** A relation between the state before and after holds for every run of
    a program, however it ends. *)
Definition preserves (R : State -> State -> Prop) {A} (m : M A) : Prop :=
  forall s r s', m s = (r, s') -> R s s'.

(** A program that always returns normally. *)
Definition returns {A} (m : M A) : Prop :=
  forall s, exists a s', m s = (Ok a, s').

(** Every exception a program raises satisfies [P]. *)
Definition raises_only (P : Exc -> Prop) {A} (m : M A) : Prop :=
  forall s e s', m s = (Raise e, s') -> P e.

(** The tracked handle is left as it was. *)
Definition same_process (s s' : State) : Prop := ui_process s' = ui_process s.

(** The trace grows by events that all satisfy [P]. *)
Definition emitted (P : Event -> Prop) (s s' : State) : Prop :=
  exists evs, trace s' = (trace s ++ evs)%list /\ Forall P evs.

(** The readiness phase leaves the handle and the ports alone and only
    adds to the trace. *)
Definition advances (s s' : State) : Prop :=
  ui_process s' = ui_process s /\ ui_port s' = ui_port s /\
  exists evs, trace s' = (trace s ++ evs)%list.

(** The event [e] is among those the run added to the trace. *)
Definition mentions (e : Event) (s s' : State) : Prop :=
  exists evs, trace s' = (trace s ++ evs)%list /\ In e evs.

(** The commands given to [subprocess.run], in order. *)
Fixpoint runs_of (evs : list Event) : list Command :=
  match evs with
  | [] => []
  | Run cmd :: r => cmd :: runs_of r
  | _ :: r => runs_of r
  end.

(** The events of a run: what the trace gained. *)
Definition new_events (s s' : State) : list Event :=
  skipn (length (trace s)) (trace s').

(** An event that starts the dependency fetch, the package install or the
    UI process: any [subprocess.run] other than the version query of a
    required tool, and any [Popen]. *)
Definition version_queries (w : World) : list Command :=
  [version_command w "git"; version_command w "node"; version_command w "npm"].

Definition only_version_queries (w : World) (e : Event) : Prop :=
  match e with
  | Run cmd => In cmd (version_queries w)
  | Popen _ _ => False
  | _ => True
  end.

(** What [stop()] does to a tracked child: terminate, wait, and kill when
    the wait times out. *)
Definition stop_events (w : World) (pid : Pid) : list Event :=
  ([Print "🛑 Stopping UI server..."; Terminate pid; Wait pid] ++
   (if wait_exits w then []
    else [Print "⚠️  Force killing UI server..."; Kill pid]) ++
   [Print "✅ UI server stopped"])%list.

(** The text an [except] clause of [start()] prints (neither clause
    catches a [KeyboardInterrupt]: nothing is printed for it). *)
Definition failure_text (e : Exc) : string :=
  match e with
  | RuntimeError msg => msg
  | OtherException text => "❌ Unexpected error: " ++ text
  | KeyboardInterrupt => EmptyString
  end.

(** The notices printed when a failure is reclassified. *)
Definition lockfile_notice : string :=
  "⚠️  package-lock.json is out of sync, switching to 'npm install'...".
Definition peer_notice : string :=
  "⚠️  Peer dependency conflict detected, retrying with --legacy-peer-deps...".

Fixpoint reclassifications (evs : list Event) : nat :=
  match evs with
  | [] => 0
  | Print text :: r =>
      (if String.eqb text lockfile_notice || String.eqb text peer_notice then 1 else 0)
      + reclassifications r
  | _ :: r => reclassifications r
  end.

(** The attempts charged to the budget if reclassified failures were
    free: the install runs that were not reclassified. *)
Definition charged (evs : list Event) : nat :=
  length (runs_of evs) - reclassifications evs.

(** No captured line mentions a finished compilation. *)
Definition marker_free (lines : list string) : Prop :=
  forall line, In line lines -> contains "Compiled" line = false.

Definition quiet (arrivals : list (stream * string)) : Prop :=
  marker_free (map (fun a => entry (fst a) (snd a)) arrivals).

(** The compilation marker never appears: not in the buffer when the UI
    process is spawned, and in no line captured afterwards. *)
Definition never_compiled (w : World) (s1 : State) : Prop :=
  marker_free (process_output s1) /\
  quiet (settle_output w) /\ quiet (gateway_output w) /\
  forall round, In round (compile_rounds w) -> quiet (fst round).

(** Every reachability probe of the HTTP check fails. *)
Definition http_unreachable (w : World) : Prop :=
  forall attempt, attempt < 5 -> exists text, http_replies w attempt = HttpError text.

Definition nextjs_warning : string :=
  "⚠️  Warning: Next.js dev server may not be ready yet".
Definition compiling_warning : string :=
  "⚠️  Next.js may still be compiling - this is normal for first startup".
Definition http_warning (text : string) : string :=
  "⚠️  Next.js not responding on port 3099: " ++ text.

(** "A reclassified failure is free of charge": the engine gives up only
    once [max_retries] timeouts or unrecognized failures were charged. *)
Definition reclassification_is_free (w : World) (s : State) : Prop :=
  forall e s', install_dependencies w s = (Raise e, s') ->
               charged (new_events s s') = max_retries.



End Obs.

Import Obs.

(** ** Scenarios *)

Module Scenario.

(** A POSIX host on which every tool answers, both ports are free, the UI
    directory exists and the child (pid 4242) stays alive; the arguments
    are the answers that vary between scenarios. *)
Definition host (tools : Command -> bool)
                (npm : nat -> Command -> RunOutcome)
                (gateway nextjs : list bool)
                (http : nat -> HttpReply)
                (exits : bool) : World :=
  {| win32 := false;
     which := fun _ => None;
     version_query := tools;
     nat_port_free := false;
     ui_port_free := true;
     stdin_reply := Line "n";
     kill_owner_in_time := true;
     ui_port_free_after_kill := true;
     ui_path_exists := true;
     git_clone := Completed;
     clone_error_text := "";
     npm_run := npm;
     env_read_error := None;
     env_write_error := None;
     popen := inr 4242;
     settle_output := [(STDOUT, "> dev" ++ nl)];
     poll_settle := None;
     gateway_probes := gateway;
     gateway_output := [(STDERR, "warn - telemetry" ++ nl)];
     poll_gateway := None;
     nextjs_probes := nextjs;
     compile_rounds := [([(STDOUT, " ○ Compiling / ..." ++ nl)], None)];
     http_replies := http;
     poll_final := None;
     wait_exits := exits |}.

(** A fresh manager ([__init__]) next to an existing [.env]. *)
Definition fresh (env : option string) : State :=
  {| ui_path := "NeMo-Agent-Toolkit-UI";
     ui_process := None;
     ui_port := 3000;
     nat_port := 8000;
     process_output := [];
     env_file := env;
     trace := [] |}.

Definition all_tools : Command -> bool := fun _ => true.
Definition installs : nat -> Command -> RunOutcome := fun _ _ => Completed.
Definition refused : nat -> HttpReply := fun _ => HttpError "Connection refused".

(** Install runs that end as listed, attempt by attempt. *)
Definition script (outcomes : list RunOutcome) : nat -> Command -> RunOutcome :=
  fun attempt _ => nth attempt outcomes Completed.

Definition lockfile_error : RunOutcome :=
  CalledProcessError
    (Some "npm error `npm ci` can only install packages when your package.json and package-lock.json are in sync.")
    None 1.

Definition peer_error : RunOutcome :=
  CalledProcessError (Some "npm error code ERESOLVE") (Some "") 1.

Definition old_env : string :=
  "# ui settings" ++ nl ++ "THEME = dark" ++ nl ++ "PORT=5000" ++ nl ++
  "NAT_BACKEND_URL=http://example:1" ++ nl ++ "junk" ++ nl ++ "THEME=light" ++ nl.

End Scenario.

(** ** The other helpers of [UIManager] *)

Module Helpers.

(** [_get_npx_path] *)
Definition which_found (w : World) (command : string) : bool :=
  match which w command with
  | Some path => truthy path
  | None => false
  end.

Definition _get_npx_path (w : World) : string :=
  let npx_path := _get_command_path w "npx" in
  if negb (String.eqb npx_path "npx") || which_found w "npx" then npx_path
  else _get_command_path w "npm" ++ " exec --".

(** [_cleanup], the exit hook; [poll] is the answer of [poll()], asked only
    when a handle is tracked. *)
Definition _cleanup (w : World) (poll : option Z) : M unit :=
  (s <- get ;;
   match ui_process s with
   | Some pid =>
       match poll with
       | None =>
           emit (Terminate pid) ;;
           emit (Wait pid) ;;
           if wait_exits w then ret tt else emit (Kill pid)
       | Some _ => ret tt
       end
   | None => ret tt
   end)%py.

(** The number of HTTP requests in a stretch of the trace. *)
Fixpoint http_gets (evs : list Event) : nat :=
  match evs with
  | [] => 0
  | HttpGet _ :: r => S (http_gets r)
  | _ :: r => http_gets r
  end.

(** The index of the first probe that finds the port taken. *)
Fixpoint first_taken (probes : list bool) : option nat :=
  match probes with
  | [] => None
  | free :: r =>
      if free then option_map S (first_taken r) else Some 0
  end.

(** One round of a wait that finds the port free: probe, then sleep. *)
Fixpoint idle_rounds (port : N) (n : nat) : list Event :=
  match n with
  | O => []
  | S k => Connect port :: Sleep 2 :: idle_rounds port k
  end.

End Helpers.

Import Helpers.

(** ** [env_setup.py] *)

Module EnvSetup.

(** [s.replace(old, new)] for a one-character [old]. *)
Fixpoint replace_char (old : ascii) (new : string) (s : string) : string :=
  match s with
  | EmptyString => EmptyString
  | String c t =>
      if Ascii.eqb c old then new ++ replace_char old new t
      else String c (replace_char old new t)
  end.

Definition backslash : ascii := ascii_of_nat 92.
Definition quote : ascii := ascii_of_nat 34.
Definition dollar : ascii := ascii_of_nat 36.
Definition backtick : ascii := ascii_of_nat 96.

Definition bs (c : ascii) : string := String backslash (String c EmptyString).

(** The Unix branch:
    [value.replace('\\', '\\\\').replace('"', '\\"').replace('$', '\\$').replace('`', '\\`')] *)
Definition escape_posix (value : string) : string :=
  replace_char backtick (bs backtick)
    (replace_char dollar (bs dollar)
       (replace_char quote (bs quote)
          (replace_char backslash (bs backslash) value))).

(** The Windows branch: [value.replace('"', '\\"').replace('$', '`$')] *)
Definition escape_win32 (value : string) : string :=
  replace_char dollar (String backtick (String dollar EmptyString))
    (replace_char quote (bs quote) value).

Definition export_line (win32 : bool) (kv : string * string) : string :=
  if win32 then "$env:" ++ fst kv ++ "=" ++ dq ++ escape_win32 (snd kv) ++ dq
  else "export " ++ fst kv ++ "=" ++ dq ++ escape_posix (snd kv) ++ dq.

Definition export_env_vars (win32 : bool) (env_vars : dict) : string :=
  join nl (map (export_line win32) env_vars).

(** One character of the value in the Unix export, read in a single pass. *)
Definition escape_posix_char (c : ascii) : string :=
  if Ascii.eqb c backslash || Ascii.eqb c quote || Ascii.eqb c dollar ||
     Ascii.eqb c backtick
  then bs c else String c EmptyString.

Definition escape_win32_char (c : ascii) : string :=
  if Ascii.eqb c quote then bs quote
  else if Ascii.eqb c dollar then String backtick (String dollar EmptyString)
  else String c EmptyString.

Fixpoint concat_map (f : ascii -> string) (s : string) : string :=
  match s with
  | EmptyString => EmptyString
  | String c t => f c ++ concat_map f t
  end.

(** A reader of the escaped text: a backslash quotes the next character. *)
Fixpoint unescape (s : string) : string :=
  match s with
  | EmptyString => EmptyString
  | String c t =>
      if Ascii.eqb c backslash then
        match t with
        | EmptyString => String c EmptyString
        | String d t' => String d (unescape t')
        end
      else String c (unescape t)
  end.

(** [find_env_file]: [child d name] is [d / name], [exists_] is
    [Path.exists], [current] is the directory of the script and [parents]
    are [current.parents], nearest first. *)
Fixpoint search_parents {P : Type} (child : P -> string -> P) (exists_ : P -> bool)
    (dirs : list P) : option P :=
  match dirs with
  | [] => None
  | parent :: rest =>
      if exists_ (child parent ".env") then Some (child parent ".env")
      else if exists_ (child parent "pyproject.toml") then
        if exists_ (child parent ".env") then Some (child parent ".env")
        else search_parents child exists_ rest
      else search_parents child exists_ rest
  end.

Definition find_env_file {P : Type} (child : P -> string -> P) (exists_ : P -> bool)
    (current : P) (parents : list P) : option P :=
  if exists_ (child current ".env") then Some (child current ".env")
  else search_parents child exists_ (current :: parents).

End EnvSetup.

Import EnvSetup.

(** ** Predicates that state what the code keeps *)

Module Keeps.

(** An event of the steps before the install: of the commands, only a
    version query, the kill of the owner of the UI port and the clone. *)
Definition setup_only (w : World) (e : Event) : Prop :=
  match e with
  | Run cmd =>
      In cmd (version_queries w) \/
      (exists port, cmd = kill_owner_command port) \/
      (exists path, cmd = clone_command path)
  | Popen _ _ => False
  | WriteEnv _ => False
  | _ => True
  end.

(** The bound of the output buffer, carried from one state to a later one. *)
Definition bounded_output (s s' : State) : Prop :=
  length (process_output s) <= 100 -> length (process_output s') <= 100.

(** No blank at either end / no blank at all. *)
Definition tidy (s : string) : Prop := lstrip s = s /\ rstrip s = s.

Fixpoint plain (s : string) : bool :=
  match s with
  | EmptyString => true
  | String c t => negb (is_space c) && plain t
  end.

(** A key and a value as [parse_line] stores them. *)
Definition storable (kv : string * string) : Prop :=
  tidy (fst kv) /\ tidy (snd kv) /\
  lf_free (fst kv) = true /\ lf_free (snd kv) = true /\
  contains "=" (fst kv) = false /\ startswith "#" (fst kv) = false.

End Keeps.

Import Keeps.

(** * Properties *)

(** ** Strings *)

Section StringFacts.

Lemma prefix_char (c : ascii) (s : string) :
  String.prefix (String c EmptyString) s = true <-> exists t, s = String c t.
Proof.
  destruct s as [|a t]; simpl.
  - split; [discriminate | intros [t H]; discriminate].
  - destruct (ascii_dec c a) as [->|Hne].
    + split; [eauto | intros _; now destruct t].
    + split; [discriminate | intros [t' H]; congruence].
Qed.

Lemma contains_cons_false (m : string) (c : ascii) (t : string) :
  contains m (String c t) = false -> contains m t = false.
Proof. simpl. intros H. apply orb_false_iff in H. tauto. Qed.

Lemma lstrip_head (c : ascii) (t : string) :
  is_space c = false -> lstrip (String c t) = String c t.
Proof. intros H. simpl. now rewrite H. Qed.

Lemma rstrip_head (c : ascii) (t : string) :
  is_space c = false -> exists r, rstrip (String c t) = String c r.
Proof.
  intros H. simpl. destruct (rstrip t); [rewrite H|]; eauto.
Qed.

(** A line that starts with a non-blank character keeps it when stripped. *)
Lemma strip_head (c : ascii) (t : string) :
  is_space c = false -> exists r, strip (String c t) = String c r.
Proof.
  intros H. destruct (rstrip_head c t H) as [r Hr].
  exists r. unfold strip. rewrite Hr. now apply lstrip_head.
Qed.

Lemma contains_char_lstrip (c : ascii) (s : string) :
  contains (String c EmptyString) s = false ->
  contains (String c EmptyString) (lstrip s) = false.
Proof.
  induction s as [|a t IH]; intros H; [assumption|].
  cbn [lstrip]. destruct (is_space a); [|assumption].
  apply IH. now apply contains_cons_false in H.
Qed.

Lemma contains_char_rstrip (c : ascii) (s : string) :
  contains (String c EmptyString) s = false ->
  contains (String c EmptyString) (rstrip s) = false.
Proof.
  induction s as [|a t IH]; intros H; [assumption|].
  pose proof (contains_cons_false _ _ _ H) as Ht.
  specialize (IH Ht).
  assert (Hp : String.prefix (String c EmptyString) (String a t) = false).
  { cbn [contains] in H. apply orb_false_iff in H. tauto. }
  assert (Hca : forall r, String.prefix (String c EmptyString) (String a r) = false).
  { intros r. simpl in Hp |- *. destruct (ascii_dec c a); [|reflexivity].
    destruct t; discriminate. }
  cbn [rstrip]. destruct (rstrip t) as [|b r] eqn:E.
  - destruct (is_space a); [reflexivity|].
    cbn [contains]. rewrite Hca. reflexivity.
  - cbn [contains]. rewrite Hca. cbn [contains] in IH. exact IH.
Qed.

Lemma contains_char_strip (c : ascii) (s : string) :
  contains (String c EmptyString) s = false ->
  contains (String c EmptyString) (strip s) = false.
Proof.
  intros H. unfold strip. now apply contains_char_lstrip, contains_char_rstrip.
Qed.



(** ['=' in line] is what makes [split('=', 1)] return two parts. *)
Lemma split_once_contains (c : ascii) (s : string) :
  contains (String c EmptyString) s = true ->
  exists k v, split_once c s = (k, Some v).
Proof.
  induction s as [|a t IH]; [discriminate|].
  intros H. cbn [split_once]. destruct (Ascii.eqb a c) eqn:E; [eauto|].
  cbn [contains] in H. apply orb_true_iff in H as [H|H].
  - apply prefix_char in H as [t' H]. injection H as -> _.
    now rewrite Ascii.eqb_refl in E.
  - destruct (IH H) as (k & v & ->). eauto.
Qed.

Lemma prefix_app (m a b : string) :
  String.prefix m a = true -> String.prefix m (a ++ b) = true.
Proof.
  revert a. induction m as [|c m IH]; intros a H; [now destruct (a ++ b)|].
  destruct a as [|x a]; [discriminate|]. simpl in *.
  destruct (ascii_dec c x); [auto | discriminate].
Qed.

Lemma prefix_self (m b : string) : String.prefix m (m ++ b) = true.
Proof.
  induction m as [|c m IH]; [now destruct b|]. simpl.
  now destruct (ascii_dec c c).
Qed.

Lemma contains_prefix (m h : string) :
  String.prefix m h = true -> contains m h = true.
Proof. intros H. destruct h; cbn [contains]; now rewrite H. Qed.

Lemma prefix_refl (m : string) : String.prefix m m = true.
Proof.
  induction m as [|c m IH]; [reflexivity|]. simpl. now destruct (ascii_dec c c).
Qed.

Lemma contains_self (m : string) : contains m m = true.
Proof. apply contains_prefix, prefix_refl. Qed.

Lemma contains_here (m b : string) : contains m (m ++ b) = true.
Proof. apply contains_prefix, prefix_self. Qed.

Lemma contains_app_l (m a b : string) :
  contains m a = true -> contains m (a ++ b) = true.
Proof.
  induction a as [|x a IH]; intros H.
  - simpl in H. rewrite orb_false_r in H. now apply contains_prefix, prefix_app.
  - cbn [contains] in H. apply orb_true_iff in H as [H|H].
    + now apply contains_prefix, prefix_app.
    + cbn [append contains]. rewrite (IH H). apply orb_true_r.
Qed.

Lemma contains_app_r (m a b : string) :
  contains m b = true -> contains m (a ++ b) = true.
Proof.
  intros H. induction a as [|x a IH]; [assumption|].
  cbn [append contains]. rewrite IH. apply orb_true_r.
Qed.

Lemma prefix_inv (m x : string) :
  String.prefix m x = true -> exists q, x = m ++ q.
Proof.
  revert x. induction m as [|c m IH]; intros x H; [now exists x|].
  destruct x as [|a x]; [discriminate|]. simpl in H.
  destruct (ascii_dec c a) as [->|]; [|discriminate].
  destruct (IH x H) as [q ->]. now exists q.
Qed.

(** [m in x] holds exactly when [x] is [p + m + q] for some [p], [q]. *)
Lemma contains_spec (m x : string) :
  contains m x = true <-> exists p q, x = p ++ m ++ q.
Proof.
  split.
  - induction x as [|a x IH]; cbn [contains]; intros H.
    + rewrite orb_false_r in H. destruct (prefix_inv _ _ H) as [q Hq].
      now exists "", q.
    + apply orb_true_iff in H as [H|H].
      * destruct (prefix_inv _ _ H) as [q Hq]. now exists "", q.
      * destruct (IH H) as (p & q & ->). now exists (String a p), q.
  - intros (p & q & ->). apply contains_app_r, contains_here.
Qed.

Lemma append_assoc (a b c : string) : (a ++ b) ++ c = a ++ b ++ c.
Proof. induction a as [|x a IH]; [reflexivity|]. simpl. now rewrite IH. Qed.

(** A text that contains [a + m + b] contains [m]. *)
Lemma contains_inner (a m b x : string) :
  contains (a ++ m ++ b) x = true -> contains m x = true.
Proof.
  intros H. apply contains_spec in H as (p & q & ->). apply contains_spec.
  exists (p ++ a), (b ++ q). now rewrite !append_assoc.
Qed.

Lemma prefix_before_newline (m x y : string) :
  lf_free m = true ->
  String.prefix m (x ++ nl ++ y) = true -> String.prefix m x = true.
Proof.
  revert x. induction m as [|c m IH]; intros x Hm H; [now destruct x|].
  cbn [lf_free] in Hm. apply andb_true_iff in Hm as [Hc Hm].
  destruct x as [|a x]; cbn [append prefix nl] in *.
  - change (ascii_of_nat 10) with LF in Hc.
    destruct (ascii_dec c LF) as [->|]; [|discriminate].
    now rewrite Ascii.eqb_refl in Hc.
  - destruct (ascii_dec c a); [auto | discriminate].
Qed.

(** A text without newline found in [x + '\n' + y] lies in [x] or in [y]. *)
Lemma contains_across_newline (m x y : string) :
  lf_free m = true -> m <> "" ->
  contains m (x ++ nl ++ y) = true -> contains m x = true \/ contains m y = true.
Proof.
  intros Hm Hne. induction x as [|a x IH]; intros H.
  - right. cbn [append nl contains] in H. apply orb_true_iff in H as [H|H]; [|assumption].
    destruct m as [|c m]; [contradiction|]. cbn [lf_free] in Hm.
    apply andb_true_iff in Hm as [Hc _]. simpl in H.
    change (ascii_of_nat 10) with LF in Hc.
    destruct (ascii_dec c LF) as [->|]; [|discriminate].
    now rewrite Ascii.eqb_refl in Hc.
  - cbn [append contains] in H. apply orb_true_iff in H as [H|H].
    + left. apply contains_prefix.
      now apply (prefix_before_newline m (String a x) y).
    + destruct (IH H) as [H1|H1]; [left | now right].
      cbn [contains]. rewrite H1. apply orb_true_r.
Qed.

(** A text without newline found in ['\n'.join(ls)] lies in a line. *)
Lemma contains_join (m : string) (ls : list string) :
  lf_free m = true -> m <> "" ->
  contains m (join nl ls) = true -> exists l, In l ls /\ contains m l = true.
Proof.
  intros Hm Hne. induction ls as [|x r IH]; intros H.
  - destruct m; [contradiction | discriminate].
  - destruct r as [|y r].
    + exists x. split; [now left | exact H].
    + change (join nl (x :: y :: r)) with (x ++ nl ++ join nl (y :: r)) in H.
      destruct (contains_across_newline m x _ Hm Hne H) as [H1|H1].
      * exists x. split; [now left | exact H1].
      * destruct (IH H1) as (l & Hin & Hl). exists l. split; [now right | exact Hl].
Qed.

End StringFacts.

(** ** The [.env] file *)

Section EnvFacts.

Lemma dict_get_set_same (k v : string) (d : dict) :
  dict_get k (dict_set k v d) = Some v.
Proof.
  induction d as [|[k' v'] r IH]; simpl.
  - now rewrite String.eqb_refl.
  - destruct (String.eqb k' k) eqn:E; simpl; rewrite E; auto.
Qed.

Lemma dict_get_set_other (k k' v : string) (d : dict) :
  k' <> k -> dict_get k' (dict_set k v d) = dict_get k' d.
Proof.
  intros Hne. induction d as [|[k0 v0] r IH]; simpl.
  - destruct (String.eqb k k') eqn:E; [|reflexivity].
    apply String.eqb_eq in E. congruence.
  - destruct (String.eqb k0 k) eqn:E; simpl.
    + apply String.eqb_eq in E. subst k0.
      destruct (String.eqb k k') eqn:E'; [|reflexivity].
      apply String.eqb_eq in E'. congruence.
    + now rewrite IH.
Qed.

Lemma dict_get_keys (k : string) (d : dict) :
  dict_get k d = None <-> ~ In k (keys d).
Proof.
  induction d as [|[k0 v0] r IH]; simpl.
  - tauto.
  - destruct (String.eqb k0 k) eqn:E.
    + apply String.eqb_eq in E. split; [discriminate | tauto].
    + apply String.eqb_neq in E. rewrite IH. tauto.
Qed.

Lemma keys_dict_set (k v : string) (d : dict) :
  keys (dict_set k v d) = if dict_mem k d then keys d else (keys d ++ [k])%list.
Proof.
  unfold dict_mem. induction d as [|[k0 v0] r IH]; simpl; [reflexivity|].
  destruct (String.eqb k0 k) eqn:E; simpl; [reflexivity|].
  rewrite IH. now destruct (dict_get k r).
Qed.

Lemma NoDup_keys_set (k v : string) (d : dict) :
  NoDup (keys d) -> NoDup (keys (dict_set k v d)).
Proof.
  intros H. rewrite keys_dict_set. unfold dict_mem.
  destruct (dict_get k d) eqn:E; [assumption|].
  apply dict_get_keys in E.
  apply NoDup_app; [assumption | repeat constructor; simpl; tauto |].
  intros x Hx [<-|[]]. contradiction.
Qed.

Lemma dict_get_In (k v : string) (d : dict) :
  dict_get k d = Some v -> In (k, v) d.
Proof.
  induction d as [|[k0 v0] r IH]; simpl; [discriminate|].
  destruct (String.eqb k0 k) eqn:E.
  - apply String.eqb_eq in E. intros [= ->]. left. now subst.
  - auto.
Qed.

Lemma In_dict_set (k v k' v' : string) (d : dict) :
  In (k, v) (dict_set k' v' d) -> (k, v) = (k', v') \/ In (k, v) d.
Proof.
  induction d as [|[k0 v0] r IH]; simpl.
  - intros [H|[]]. left. congruence.
  - destruct (String.eqb k0 k') eqn:E; simpl.
    + apply String.eqb_eq in E. subst k0. intros [H|H]; [left; congruence | auto].
    + intros [H|H]; auto. destruct (IH H); auto.
Qed.

Lemma parse_line_entry (env_vars : dict) (raw : string) :
  parse_line env_vars raw =
  match line_entry raw with
  | Some (k, v) => dict_set k v env_vars
  | None => env_vars
  end.
Proof.
  unfold parse_line, line_entry. destruct (accepted (strip raw)); [|reflexivity].
  now destruct (split_once "=" (strip raw)) as [key [value|]].
Qed.



Lemma fold_parse_NoDup (ls : list string) (acc : dict) :
  NoDup (keys acc) -> NoDup (keys (fold_left parse_line ls acc)).
Proof.
  revert acc. induction ls as [|l r IH]; intros acc H; simpl; [assumption|].
  apply IH. rewrite parse_line_entry.
  destruct (line_entry l) as [[k v]|]; [now apply NoDup_keys_set | assumption].
Qed.

Lemma fold_parse_origin (ls : list string) (acc : dict) (k v : string) :
  In (k, v) (fold_left parse_line ls acc) ->
  In (k, v) acc \/ exists raw, In raw ls /\ line_entry raw = Some (k, v).
Proof.
  revert acc. induction ls as [|l r IH]; intros acc H; simpl in *; [tauto|].
  destruct (IH _ H) as [H1|(raw & Hin & He)].
  - rewrite parse_line_entry in H1.
    destruct (line_entry l) as [[k' v']|] eqn:E; [|tauto].
    destruct (In_dict_set _ _ _ _ _ H1) as [[= -> ->]|H2]; [|tauto].
    right. exists l. tauto.
  - right. exists raw. tauto.
Qed.


Lemma update_env_backend (url : string) (ui_port : N) (d : dict) :
  dict_get "NAT_BACKEND_URL" (update_env url ui_port d) = Some url.
Proof.
  unfold update_env. destruct (dict_mem "PORT" _).
  - apply dict_get_set_same.
  - rewrite dict_get_set_other by discriminate. apply dict_get_set_same.
Qed.

Lemma update_env_other (url : string) (ui_port : N) (d : dict) (k v : string) :
  k <> "NAT_BACKEND_URL" -> dict_get k d = Some v ->
  dict_get k (update_env url ui_port d) = Some v.
Proof.
  intros Hk Hv. unfold update_env, dict_mem.
  destruct (dict_get "PORT" (dict_set "NAT_BACKEND_URL" url d)) eqn:E.
  - now rewrite dict_get_set_other.
  - rewrite dict_get_set_other in E by discriminate.
    assert (k <> "PORT") by congruence.
    now rewrite !dict_get_set_other.
Qed.

Lemma update_env_port_default (url : string) (ui_port : N) (d : dict) :
  dict_get "PORT" d = None ->
  dict_get "PORT" (update_env url ui_port d) = Some (str_N ui_port).
Proof.
  intros H. unfold update_env, dict_mem.
  rewrite dict_get_set_other by discriminate. rewrite H.
  apply dict_get_set_same.
Qed.

Lemma update_env_no_new_keys (url : string) (ui_port : N) (d : dict) (k v : string) :
  dict_get k (update_env url ui_port d) = Some v ->
  k = "NAT_BACKEND_URL" \/ k = "PORT" \/ dict_get k d = Some v.
Proof.
  destruct (String.eqb_spec k "NAT_BACKEND_URL") as [->|H1]; [tauto|].
  destruct (String.eqb_spec k "PORT") as [->|H2]; [tauto|].
  unfold update_env. destruct (dict_mem "PORT" _);
    rewrite !dict_get_set_other by assumption; tauto.
Qed.

Lemma update_env_NoDup (url : string) (ui_port : N) (d : dict) :
  NoDup (keys d) -> NoDup (keys (update_env url ui_port d)).
Proof.
  intros H. unfold update_env.
  destruct (dict_mem "PORT" _); repeat apply NoDup_keys_set; assumption.
Qed.

Lemma read_env_NoDup (env_file : option string) : NoDup (keys (read_env env_file)).
Proof.
  destruct env_file; simpl; [|constructor].
  apply fold_parse_NoDup. constructor.
Qed.

End EnvFacts.

(** C8: the [.env] step of [start()] reads the existing file when there is
    one, writes back every key it found with the value it had (one line per
    key), sets [NAT_BACKEND_URL] to the backend URL whatever the file said,
    and sets [PORT] to the UI port only when the file had no [PORT]; no
    other key is added. *)
Theorem configure_environment_rewrites_env (w : World) (s : State) :
  env_read_error w = None ->
  env_write_error w = None ->
  let old := read_env (env_file s) in
  let new := final_env (env_file s) (nat_port s) (ui_port s) in
  (exists s', configure_environment w s = (Ok tt, s') /\
              env_file s' = Some (configure_env (env_file s) (nat_port s) (ui_port s))) /\
  NoDup (keys new) /\
  (forall k v, dict_get k new = Some v -> In (k ++ "=" ++ v ++ nl) (written_lines new)) /\
  dict_get "NAT_BACKEND_URL" new = Some (nat_backend_url (nat_port s)) /\
  (forall k v, k <> "NAT_BACKEND_URL" -> dict_get k old = Some v -> dict_get k new = Some v) /\
  (dict_get "PORT" old = None -> dict_get "PORT" new = Some (str_N (ui_port s))) /\
  (forall k v, dict_get k new = Some v ->
               k = "NAT_BACKEND_URL" \/ k = "PORT" \/ dict_get k old = Some v).
Proof.
  intros Hr Hw old new. repeat split.
  - unfold configure_environment, bind, print, emit, get, set_env_file, ret; simpl.
    rewrite Hr, Hw. destruct (env_file s); simpl; eexists; split; reflexivity.
  - apply update_env_NoDup, read_env_NoDup.
  - intros k v H. apply dict_get_In in H.
    apply (in_map env_line) in H. exact H.
  - apply update_env_backend.
  - intros k v. apply update_env_other.
  - apply update_env_port_default.
  - intros k v. apply update_env_no_new_keys.
Qed.

Lemma configure_environment_rewrites_env_witness :
  configure_env (Some Scenario.old_env) 8000 3000 =
    "THEME=light" ++ nl ++ "PORT=5000" ++ nl ++
    "NAT_BACKEND_URL=http://localhost:8000" ++ nl /\
  dict_get "NAT_BACKEND_URL"
    (final_env (Some Scenario.old_env) 8000 3000) = Some "http://localhost:8000".
Proof.
  split; [reflexivity|].
  exact (proj1 (proj2 (proj2 (proj2
    (configure_environment_rewrites_env
       (Scenario.host Scenario.all_tools Scenario.installs [false] [false]
                      Scenario.refused true)
       (Scenario.fresh (Some Scenario.old_env)) eq_refl eq_refl))))).
Defined.



(** ** The output buffer *)

Section BufferFacts.

Lemma last_n_short {A} (n : nat) (l : list A) : length l <= n -> last_n n l = l.
Proof.
  intros H. unfold last_n. replace (length l - n) with 0 by lia. apply skipn_0.
Qed.

Lemma length_last_n {A} (n : nat) (l : list A) :
  length (last_n n l) = Nat.min n (length l).
Proof. unfold last_n. rewrite length_skipn. lia. Qed.

Lemma In_last_n {A} (n : nat) (l : list A) (x : A) : In x (last_n n l) -> In x l.
Proof.
  unfold last_n. intros H. rewrite <- (firstn_skipn (length l - n) l).
  apply in_app_iff. now right.
Qed.

Lemma last_n_app_last_n {A} (n : nat) (a b : list A) :
  last_n n (last_n n a ++ b)%list = last_n n (a ++ b)%list.
Proof.
  unfold last_n. rewrite !length_app, !skipn_app, skipn_skipn, !length_skipn.
  f_equal; f_equal; lia.
Qed.

(** One append under the lock keeps the last 100 lines. *)
Lemma append_line_last_n (e : string) (buf : list string) :
  length buf <= 100 -> append_line e buf = last_n 100 (buf ++ [e])%list.
Proof.
  intros H. unfold append_line, last_n. rewrite length_app. cbn [length].
  destruct (Nat.ltb_spec 100 (length buf + 1)) as [Hl|Hl].
  - replace (length buf + 1 - 100) with 1 by lia.
    now destruct (buf ++ [e])%list.
  - replace (length buf + 1 - 100) with 0 by lia. reflexivity.
Qed.

Lemma append_line_bound (e : string) (buf : list string) :
  length buf <= 100 -> length (append_line e buf) <= 100.
Proof.
  intros H. rewrite append_line_last_n, length_last_n by assumption. lia.
Qed.

Lemma run_appends_bound (arrivals buf : list string) :
  length buf <= 100 -> length (run_appends arrivals buf) <= 100.
Proof.
  revert buf. induction arrivals as [|e r IH]; intros buf H; [assumption|].
  apply IH. now apply append_line_bound.
Qed.

Lemma run_appends_last_n (arrivals buf : list string) :
  length buf <= 100 ->
  run_appends arrivals buf = last_n 100 (buf ++ arrivals)%list.
Proof.
  revert buf. induction arrivals as [|e r IH]; intros buf H.
  - simpl. rewrite app_nil_r. symmetry. now apply last_n_short.
  - change (run_appends (e :: r) buf) with (run_appends r (append_line e buf)).
    rewrite IH by now apply append_line_bound.
    rewrite append_line_last_n by assumption.
    rewrite last_n_app_last_n, <- app_assoc. reflexivity.
Qed.

Lemma Interleaving_app {A} (l r : list A) : Interleaving l r (l ++ r)%list.
Proof.
  induction l as [|x l IH]; simpl.
  - induction r; constructor; assumption.
  - now constructor.
Qed.

Lemma Interleaving_length {A} (l r m : list A) :
  Interleaving l r m -> length m = length l + length r.
Proof. induction 1; simpl; lia. Qed.

(** C3: the captured-output buffer is a FIFO bounded by 100 lines. For any
    interleaving of the entries of the two capture threads into more than
    100 arrivals, the buffer (empty at construction) holds at most 100
    lines after every append, and after the last one it holds exactly the
    100 most recent arrivals, in arrival order. *)
Theorem output_buffer_bounded_fifo (out_reads err_reads arrivals : list string) :
  Interleaving (entries STDOUT out_reads) (entries STDERR err_reads) arrivals ->
  100 < length arrivals ->
  (forall n, length (run_appends (firstn n arrivals) []) <= 100) /\
  run_appends arrivals [] = skipn (length arrivals - 100) arrivals /\
  length (run_appends arrivals []) = 100.
Proof.
  intros _ Hn. split; [|split].
  - intros n. apply run_appends_bound. simpl. lia.
  - rewrite run_appends_last_n by (simpl; lia). reflexivity.
  - rewrite run_appends_last_n by (simpl; lia).
    cbn [app]. rewrite length_last_n. lia.
Qed.

Lemma output_buffer_bounded_fifo_witness :
  let out_reads := repeat ("ready" ++ nl) 60 in
  let err_reads := repeat ("warn " ++ nl) 41 in
  run_appends (entries STDOUT out_reads ++ entries STDERR err_reads)%list [] =
  (repeat "[STDOUT] ready" 59 ++ repeat "[STDERR] warn" 41)%list.
Proof.
  intros out_reads err_reads.
  assert (Hn : 100 < length (entries STDOUT out_reads ++ entries STDERR err_reads)%list)
    by (apply Nat.ltb_lt; reflexivity).
  rewrite (proj1 (proj2
    (output_buffer_bounded_fifo out_reads err_reads _ (Interleaving_app _ _) Hn))).
  reflexivity.
Defined.

End BufferFacts.

(** ** Reasoning about runs of the monad *)

Section MonadFacts.

Context {A B : Type}.

Lemma bind_ok (m : M A) (k : A -> M B) (s s1 : State) (a : A) :
  m s = (Ok a, s1) -> bind m k s = k a s1.
Proof. intros H. unfold bind. now rewrite H. Qed.

Lemma bind_raise (m : M A) (k : A -> M B) (s s1 : State) (e : Exc) :
  m s = (Raise e, s1) -> bind m k s = (Raise e, s1).
Proof. intros H. unfold bind. now rewrite H. Qed.

Lemma bind_Ok_inv (m : M A) (k : A -> M B) (s s' : State) (b : B) :
  bind m k s = (Ok b, s') ->
  exists a s1, m s = (Ok a, s1) /\ k a s1 = (Ok b, s').
Proof.
  unfold bind. destruct (m s) as [[a|e] s1]; [eauto | discriminate].
Qed.

Lemma bind_Raise_inv (m : M A) (k : A -> M B) (s s' : State) (e : Exc) :
  bind m k s = (Raise e, s') ->
  m s = (Raise e, s') \/ exists a s1, m s = (Ok a, s1) /\ k a s1 = (Raise e, s').
Proof.
  unfold bind. destruct (m s) as [[a|e'] s1]; [eauto | intros [= -> ->]; auto].
Qed.

End MonadFacts.

Section Preservation.

Variable R : State -> State -> Prop.
Hypothesis R_refl : forall s, R s s.
Hypothesis R_trans : forall a b c, R a b -> R b c -> R a c.

Lemma preserves_ret {A} (a : A) : preserves R (ret a).
Proof. intros s r s' [= <- <-]. apply R_refl. Qed.

Lemma preserves_raise {A} (e : Exc) : preserves R (@raise A e).
Proof. intros s r s' [= <- <-]. apply R_refl. Qed.

Lemma preserves_get : preserves R get.
Proof. intros s r s' [= <- <-]. apply R_refl. Qed.

Lemma preserves_bind {A B} (m : M A) (k : A -> M B) :
  preserves R m -> (forall a, preserves R (k a)) -> preserves R (bind m k).
Proof.
  intros Hm Hk s r s'. unfold bind.
  destruct (m s) as [[a|e] s1] eqn:E; intros H.
  - eapply R_trans; [eapply Hm, E | eapply Hk, H].
  - injection H as <- <-. eapply Hm, E.
Qed.

Lemma preserves_try_except {A} (m : M A) (h : Exc -> M A) :
  preserves R m -> (forall e, preserves R (h e)) -> preserves R (try_except m h).
Proof.
  intros Hm Hh s r s'. unfold try_except.
  destruct (m s) as [[a|e] s1] eqn:E; intros H.
  - injection H as <- <-. eapply Hm, E.
  - destruct (is_Exception e).
    + eapply R_trans; [eapply Hm, E | eapply Hh, H].
    + injection H as <- <-. eapply Hm, E.
Qed.

End Preservation.

Lemma same_process_refl (s : State) : same_process s s.
Proof. reflexivity. Qed.

Lemma same_process_trans (a b c : State) :
  same_process a b -> same_process b c -> same_process a c.
Proof. unfold same_process. congruence. Qed.

Lemma emitted_refl (P : Event -> Prop) (s : State) : emitted P s s.
Proof. exists []. now rewrite app_nil_r. Qed.

Lemma emitted_trans (P : Event -> Prop) (a b c : State) :
  emitted P a b -> emitted P b c -> emitted P a c.
Proof.
  intros (e1 & H1 & F1) (e2 & H2 & F2). exists (e1 ++ e2)%list. split.
  - now rewrite H2, H1, app_assoc.
  - apply Forall_app. now split.
Qed.

Lemma emitted_weaken (P Q : Event -> Prop) (s s' : State) :
  (forall e, P e -> Q e) -> emitted P s s' -> emitted Q s s'.
Proof.
  intros H (evs & Ht & F). exists evs. split; [assumption|].
  eapply Forall_impl; eauto.
Qed.

Lemma new_events_emitted (s s' : State) (evs : list Event) :
  trace s' = (trace s ++ evs)%list -> new_events s s' = evs.
Proof.
  intros H. unfold new_events. rewrite H, skipn_app, skipn_all, Nat.sub_diag.
  reflexivity.
Qed.

Lemma advances_refl (s : State) : advances s s.
Proof. repeat split. exists []. now rewrite app_nil_r. Qed.

Lemma advances_trans (a b c : State) : advances a b -> advances b c -> advances a c.
Proof.
  intros (P1 & Q1 & e1 & H1) (P2 & Q2 & e2 & H2). repeat split; try congruence.
  exists (e1 ++ e2)%list. now rewrite H2, H1, app_assoc.
Qed.

Lemma mentions_then (e : Event) (a b c : State) :
  mentions e a b -> advances b c -> mentions e a c.
Proof.
  intros (e1 & H1 & Hin) (_ & _ & e2 & H2). exists (e1 ++ e2)%list. split.
  - now rewrite H2, H1, app_assoc.
  - apply in_app_iff. now left.
Qed.

Lemma mentions_after (e : Event) (a b c : State) :
  advances a b -> mentions e b c -> mentions e a c.
Proof.
  intros (_ & _ & e1 & H1) (e2 & H2 & Hin). exists (e1 ++ e2)%list. split.
  - now rewrite H2, H1, app_assoc.
  - apply in_app_iff. now right.
Qed.

Lemma mentions_emit (e : Event) (s : State) : mentions e s (snd (emit e s)).
Proof. exists [e]. simpl. auto. Qed.

Create HintDb pres.

#[local] Hint Resolve same_process_refl same_process_trans emitted_refl emitted_trans
  advances_refl advances_trans : pres.

Section Primitives.

Lemma advances_emit (e : Event) : preserves advances (emit e).
Proof. intros s r s' [= <- <-]. repeat split. now exists [e]. Qed.

Lemma advances_set_process_output (l : list string) :
  preserves advances (set_process_output l).
Proof.
  intros s r s' [= <- <-]. repeat split. exists []. simpl. now rewrite app_nil_r.
Qed.

Lemma emitted_emit (P : Event -> Prop) (e : Event) :
  P e -> preserves (emitted P) (emit e).
Proof. intros H s r s' [= <- <-]. exists [e]. split; [reflexivity | now constructor]. Qed.

Lemma emitted_set_ui_process (P : Event -> Prop) (p : option Pid) :
  preserves (emitted P) (set_ui_process p).
Proof.
  intros s r s' [= <- <-]. exists []. simpl. now rewrite app_nil_r.
Qed.

Lemma emitted_set_process_output (P : Event -> Prop) (l : list string) :
  preserves (emitted P) (set_process_output l).
Proof.
  intros s r s' [= <- <-]. exists []. simpl. now rewrite app_nil_r.
Qed.

Lemma emitted_set_env_file (P : Event -> Prop) (c : option string) :
  preserves (emitted P) (set_env_file c).
Proof.
  intros s r s' [= <- <-]. exists []. simpl. now rewrite app_nil_r.
Qed.

Lemma returns_ret {A} (a : A) : returns (ret a).
Proof. intros s. now exists a, s. Qed.

Lemma returns_get : returns get.
Proof. intros s. now exists s, s. Qed.

Lemma returns_emit (e : Event) : returns (emit e).
Proof. intros s. eexists tt, _. reflexivity. Qed.

Lemma returns_set_process_output (l : list string) : returns (set_process_output l).
Proof. intros s. eexists tt, _. reflexivity. Qed.

Lemma returns_set_ui_process (p : option Pid) : returns (set_ui_process p).
Proof. intros s. eexists tt, _. reflexivity. Qed.

Lemma returns_bind {A B} (m : M A) (k : A -> M B) :
  returns m -> (forall a, returns (k a)) -> returns (bind m k).
Proof.
  intros Hm Hk s. destruct (Hm s) as (a & s1 & E).
  destruct (Hk a s1) as (b & s' & E'). exists b, s'.
  now rewrite (bind_ok _ _ _ _ _ E).
Qed.

End Primitives.

#[local] Hint Resolve advances_emit advances_set_process_output
  emitted_set_ui_process emitted_set_process_output emitted_set_env_file
  returns_ret returns_get returns_emit returns_set_process_output
  returns_set_ui_process : pres.

(** One structural step of a preservation or termination proof. *)
Ltac pres_step :=
  match goal with
  | |- preserves _ (bind _ _) => apply preserves_bind; [solve [eauto with pres] | | intros ?]
  | |- preserves _ (ret _) => apply preserves_ret; auto with pres
  | |- preserves _ (raise _) => apply preserves_raise; auto with pres
  | |- preserves _ get => apply preserves_get; auto with pres
  | |- preserves _ (try_except _ _) =>
      apply preserves_try_except; [solve [eauto with pres] | | intros ?]
  | |- preserves (emitted _) (emit _) => apply emitted_emit; simpl; auto
  | |- returns (bind _ _) => apply returns_bind; [| intros ?]
  | |- _ (print _) => unfold print
  | |- _ (sleep _) => unfold sleep
  | |- _ (if ?b then _ else _) => destruct b
  | |- _ (match ?x with _ => _ end) => destruct x
  | |- _ => solve [auto with pres]
  end.

Ltac pres := repeat pres_step.

Ltac run_monad_in H :=
  cbv [bind ret raise get emit print sleep set_ui_process set_process_output
       set_env_file try_except is_Exception negb
       ui_path ui_process ui_port nat_port process_output env_file trace] in H.

(** Evaluation of the monad's primitives on a state given by its fields. *)
Ltac run_monad :=
  cbv [bind ret raise get emit print sleep set_ui_process set_process_output
       set_env_file try_except is_Exception negb
       ui_path ui_process ui_port nat_port process_output env_file trace].

Section Readiness.

Variable w : World.

Lemma advances_absorb (arrivals : list (stream * string)) :
  preserves advances (absorb arrivals).
Proof.
  induction arrivals as [|[st line] r IH]; cbn [absorb]; pres.
  unfold surfaced. destruct st; [destruct (any_in _ _)|]; cbn [fold_right]; pres.
Qed.

Lemma returns_absorb (arrivals : list (stream * string)) : returns (absorb arrivals).
Proof.
  induction arrivals as [|[st line] r IH]; cbn [absorb]; pres.
  unfold surfaced. destruct st; [destruct (any_in _ _)|]; cbn [fold_right]; pres.
Qed.

Lemma advances_wait_loop (port : N) (probes : list bool) :
  preserves advances (wait_loop port probes).
Proof.
  induction probes as [|free r IH]; cbn [wait_loop]; unfold _check_port_available; pres.
Qed.

(** [_wait_for_port] returns whether some probe found the port taken, and
    leaves the output buffer alone. *)
Lemma wait_loop_result (port : N) (probes : list bool) (s : State) :
  exists s', wait_loop port probes s = (Ok (existsb negb probes), s') /\
             process_output s' = process_output s.
Proof.
  revert s. induction probes as [|free r IH]; intros s; cbn [wait_loop existsb].
  - eexists. split; reflexivity.
  - unfold _check_port_available, bind, emit, ret, sleep. cbn.
    destruct free; cbn; [|eexists; split; reflexivity].
    match goal with |- context [wait_loop port r ?st] =>
      destruct (IH st) as (s' & E & Hp) end.
    exists s'. split; [exact E | exact Hp].
Qed.

Lemma advances_compile_loop (rounds : list (list (stream * string) * option Z)) :
  preserves advances (compile_loop rounds).
Proof.
  pose proof advances_absorb.
  induction rounds as [|[arrivals poll] r IH]; cbn [compile_loop]; pres.
Qed.

Lemma returns_compile_loop (rounds : list (list (stream * string) * option Z)) :
  returns (compile_loop rounds).
Proof.
  pose proof returns_absorb.
  induction rounds as [|[arrivals poll] r IH]; cbn [compile_loop]; pres.
Qed.

Lemma advances_show_recent_output : preserves advances show_recent_output.
Proof. unfold show_recent_output. pres. Qed.

Lemma returns_show_recent_output : returns show_recent_output.
Proof. unfold show_recent_output. pres. Qed.

Lemma advances_http_loop (attempts : list nat) : preserves advances (http_loop w attempts).
Proof.
  pose proof advances_show_recent_output.
  induction attempts as [|a r IH]; cbn [http_loop]; pres.
Qed.

Lemma returns_http_loop (attempts : list nat) : returns (http_loop w attempts).
Proof.
  pose proof returns_show_recent_output.
  induction attempts as [|a r IH]; cbn [http_loop]; pres.
Qed.

Lemma returns_wait_loop (port : N) (probes : list bool) : returns (wait_loop port probes).
Proof. intros s. destruct (wait_loop_result port probes s) as (s' & E & _). eauto. Qed.

Lemma advances_wait_nextjs : preserves advances (wait_nextjs w).
Proof.
  pose proof advances_wait_loop. pose proof advances_compile_loop.
  pose proof advances_http_loop.
  unfold wait_nextjs, _wait_for_port. pres.
Qed.

(** The secondary phase never raises. *)
Lemma returns_wait_nextjs : returns (wait_nextjs w).
Proof.
  pose proof returns_wait_loop. pose proof returns_compile_loop.
  pose proof returns_http_loop.
  unfold wait_nextjs, _wait_for_port. pres.
Qed.

Lemma advances_settle : preserves advances (settle w).
Proof. pose proof advances_absorb. unfold settle. pres. Qed.

Lemma advances_wait_gateway : preserves advances (wait_gateway w).
Proof.
  pose proof advances_absorb. pose proof advances_wait_loop.
  unfold wait_gateway, _wait_for_port. pres.
Qed.

Lemma advances_final_health_check : preserves advances (final_health_check w).
Proof. unfold final_health_check. pres. Qed.

Lemma advances_await_ready : preserves advances (await_ready w).
Proof.
  pose proof advances_settle. pose proof advances_wait_gateway.
  pose proof advances_wait_nextjs. pose proof advances_final_health_check.
  unfold await_ready. pres.
Qed.

End Readiness.

(** ** [stop()] *)

Section StopFacts.

Variable w : World.

Lemma stop_untracked (s : State) : ui_process s = None -> stop w s = (Ok tt, s).
Proof. intros H. unfold stop, bind, get. now rewrite H. Qed.

Lemma stop_tracked (s : State) (pid : Pid) :
  ui_process s = Some pid ->
  exists s', stop w s = (Ok tt, s') /\ ui_process s' = None /\
             trace s' = (trace s ++ stop_events w pid)%list.
Proof.
  destruct s as [path proc up np out env tr]. cbn [ui_process]. intros ->.
  unfold stop, stop_events. destruct (wait_exits w); run_monad;
    (eexists; split; [reflexivity|]; split; [reflexivity|]);
    rewrite <- ?app_assoc; reflexivity.
Qed.

Lemma stop_clears (s : State) :
  exists s', stop w s = (Ok tt, s') /\ ui_process s' = None.
Proof.
  destruct (ui_process s) as [pid|] eqn:E.
  - destruct (stop_tracked s pid E) as (s' & H1 & H2 & _). eauto.
  - exists s. split; [now apply stop_untracked | assumption].
Qed.

Lemma stop_emitted (P : Event -> Prop) :
  (forall text, P (Print text)) -> (forall pid, P (Terminate pid)) ->
  (forall pid, P (Wait pid)) -> (forall pid, P (Kill pid)) ->
  preserves (emitted P) (stop w).
Proof. intros. unfold stop. pres. Qed.

(** Both [except] clauses print, call [stop()] and return [False]. *)
Lemma on_failure_stops (e : Exc) (s : State) :
  is_Exception e = true ->
  exists s1 s', print (failure_text e) s = (Ok tt, s1) /\
                stop w s1 = (Ok tt, s') /\
                on_failure w e s = (Ok false, s') /\ ui_process s' = None.
Proof.
  intros He.
  destruct (stop_clears (snd (print (failure_text e) s))) as (s' & H1 & H2).
  exists (snd (print (failure_text e) s)), s'. repeat split; try assumption.
  unfold on_failure. destruct e; [| |discriminate]; cbn [failure_text] in *;
    unfold bind at 1; cbn; unfold bind at 1; cbn in H1 |- *; now rewrite H1.
Qed.



Lemma on_failure_emitted (P : Event -> Prop) (e : Exc) :
  (forall text, P (Print text)) -> (forall pid, P (Terminate pid)) ->
  (forall pid, P (Wait pid)) -> (forall pid, P (Kill pid)) ->
  preserves (emitted P) (on_failure w e).
Proof.
  intros. pose proof (stop_emitted P). unfold on_failure. pres.
Qed.

End StopFacts.

(** C6: [stop()] is idempotent. Whatever the state and however the
    termination goes (the child exits within the wait, or the wait times
    out and the child is killed), [stop()] returns without error and
    leaves no tracked handle; a second [stop()] right after it, and any
    [stop()] with no tracked handle, returns without error and changes
    nothing. *)
Theorem stop_idempotent (w1 w2 : World) (s : State) :
  exists s1,
    stop w1 s = (Ok tt, s1) /\
    ui_process s1 = None /\
    stop w2 s1 = (Ok tt, s1) /\
    (ui_process s = None -> s1 = s) /\
    (forall pid, ui_process s = Some pid ->
                 trace s1 = (trace s ++ stop_events w1 pid)%list).
Proof.
  destruct (ui_process s) as [pid|] eqn:E.
  - destruct (stop_tracked w1 s pid E) as (s1 & H1 & H2 & H3).
    exists s1. repeat split; try assumption.
    + now apply stop_untracked.
    + discriminate.
    + now intros pid' [= <-].
  - exists s. repeat split; try assumption.
    + now apply stop_untracked.
    + now apply stop_untracked.
    + discriminate.
Qed.

Lemma stop_idempotent_witness :
  exists s1,
    stop (Scenario.host Scenario.all_tools Scenario.installs [] [] Scenario.refused false)
         (mkState "ui" (Some 7) 3000 8000 [] None []) = (Ok tt, s1) /\
    ui_process s1 = None /\
    trace s1 = [Print "🛑 Stopping UI server..."; Terminate 7; Wait 7;
                Print "⚠️  Force killing UI server..."; Kill 7;
                Print "✅ UI server stopped"].
Proof.
  destruct (stop_idempotent
              (Scenario.host Scenario.all_tools Scenario.installs [] [] Scenario.refused false)
              (Scenario.host Scenario.all_tools Scenario.installs [] [] Scenario.refused true)
              (mkState "ui" (Some 7) 3000 8000 [] None []))
    as (s1 & H1 & H2 & _ & _ & H5).
  exists s1. repeat split; try assumption.
  exact (H5 7 eq_refl).
Defined.

(** ** [start()]: prerequisites *)

Section Prerequisites.

Variable w : World.

Lemma check_prerequisites_emitted :
  preserves (emitted (only_version_queries w)) (check_prerequisites w).
Proof.
  unfold check_prerequisites, require_command, _check_command_exists. pres.
Qed.

Lemma check_prerequisites_raises (s : State) :
  version_query w (version_command w "git") = false \/
  version_query w (version_command w "node") = false \/
  version_query w (version_command w "npm") = false ->
  exists msg s1, check_prerequisites w s = (Raise (RuntimeError msg), s1).
Proof.
  intros H. destruct s as [path proc up np out env tr].
  unfold check_prerequisites, require_command, _check_command_exists.
  destruct (version_query w (version_command w "git")) eqn:G;
    [destruct (version_query w (version_command w "node")) eqn:No;
       [destruct (version_query w (version_command w "npm")) eqn:Np|]|];
    run_monad; rewrite ?G, ?No, ?Np; run_monad; rewrite ?G, ?No, ?Np; run_monad;
    rewrite ?G, ?No, ?Np; run_monad; try (eexists _, _; reflexivity).
  destruct H as [H|[H|H]]; discriminate.
Qed.

End Prerequisites.

(** C5: when git, node or npm is missing or fails its version query,
    [start()] returns [False], and the only subprocesses it ran are
    version queries of the required tools: no clone, no install and no UI
    process. *)
Theorem missing_tool_short_circuit (w : World) (s : State) :
  version_query w (version_command w "git") = false \/
  version_query w (version_command w "node") = false \/
  version_query w (version_command w "npm") = false ->
  exists s', start w s = (Ok false, s') /\
             emitted (only_version_queries w) s s' /\
             ui_process s' = None.
Proof.
  intros H. destruct (check_prerequisites_raises w s H) as (msg & s1 & E).
  assert (Hbody : start_body w s = (Raise (RuntimeError msg), s1)).
  { unfold start_body, prepare, preflight. now apply bind_raise, bind_raise, bind_raise. }
  destruct (on_failure_stops w (RuntimeError msg) s1 eq_refl) as (s2 & s' & _ & _ & Hf & Hp).
  exists s'. repeat split; try assumption.
  - unfold start, try_except. now rewrite Hbody.
  - eapply emitted_trans.
    + eapply check_prerequisites_emitted, E.
    + eapply on_failure_emitted, Hf; simpl; auto.
Qed.

Lemma missing_tool_short_circuit_witness :
  exists s',
    start (Scenario.host (fun _ => false) Scenario.installs [false] [false]
                         Scenario.refused true)
          (Scenario.fresh None) = (Ok false, s') /\
    runs_of (trace s') = [Argv ["git"; "--version"]].
Proof.
  destruct (missing_tool_short_circuit
              (Scenario.host (fun _ => false) Scenario.installs [false] [false]
                             Scenario.refused true)
              (Scenario.fresh None) (or_introl eq_refl)) as (s' & H & _).
  exists s'. split; [exact H|].
  vm_compute in H. injection H as <-. reflexivity.
Defined.

(** ** [start()]: the exceptions it catches and the one it lets through *)

Section Raises.

Variable P : Exc -> Prop.

Lemma raises_only_ret {A} (a : A) : raises_only P (ret a).
Proof. intros s e s' H. discriminate. Qed.

Lemma raises_only_get : raises_only P get.
Proof. intros s e s' H. discriminate. Qed.

Lemma raises_only_emit (ev : Event) : raises_only P (emit ev).
Proof. intros s e s' H. discriminate. Qed.

Lemma raises_only_set_ui_process (p : option Pid) : raises_only P (set_ui_process p).
Proof. intros s e s' H. discriminate. Qed.

Lemma raises_only_set_env_file (c : option string) : raises_only P (set_env_file c).
Proof. intros s e s' H. discriminate. Qed.

Lemma raises_only_raise {A} (e : Exc) : P e -> raises_only P (@raise A e).
Proof. intros H s e' s' [= <- _]. exact H. Qed.

Lemma raises_only_bind {A B} (m : M A) (k : A -> M B) :
  raises_only P m -> (forall a, raises_only P (k a)) -> raises_only P (bind m k).
Proof.
  intros Hm Hk s e s'. unfold bind.
  destruct (m s) as [[a|e0] s1] eqn:E; intros H.
  - eapply Hk, H.
  - injection H as <- <-. eapply Hm, E.
Qed.

(** A program that always returns raises nothing. *)
Lemma raises_only_returns {A} (m : M A) : returns m -> raises_only P m.
Proof.
  intros H s e s' E. destruct (H s) as (a & s1 & E1). rewrite E1 in E. discriminate.
Qed.

(** [except Exception] lets through what is no [Exception]. *)
Lemma raises_only_try_except {A} (Q : Exc -> Prop) (m : M A) (h : Exc -> M A) :
  raises_only Q m -> (forall e, Q e -> is_Exception e = false -> P e) ->
  (forall e, raises_only P (h e)) -> raises_only P (try_except m h).
Proof.
  intros Hm HQ Hh s e s'. unfold try_except.
  destruct (m s) as [[a|e0] s1] eqn:E; intros H; [discriminate|].
  destruct (is_Exception e0) eqn:Ex.
  - eapply Hh, H.
  - injection H as <- <-. apply HQ; [eapply Hm, E | exact Ex].
Qed.

End Raises.


(** One structural step of a proof about the exceptions of a program. *)
Ltac raises_step :=
  match goal with
  | |- raises_only _ (bind _ _) => apply raises_only_bind; [| intros ?]
  | |- raises_only _ (ret _) => apply raises_only_ret
  | |- raises_only _ get => apply raises_only_get
  | |- raises_only _ (emit _) => apply raises_only_emit
  | |- raises_only _ (set_ui_process _) => apply raises_only_set_ui_process
  | |- raises_only _ (set_env_file _) => apply raises_only_set_env_file
  | |- raises_only _ (raise _) =>
      apply raises_only_raise; first [reflexivity | intro; first [discriminate | assumption]]
  | |- raises_only _ (print _) => unfold print
  | |- raises_only _ (sleep _) => unfold sleep
  | |- raises_only _ (if ?b then _ else _) => destruct b
  | |- raises_only _ (match ?x with _ => _ end) => destruct x eqn:?
  end.

Ltac raises := repeat raises_step.

Section Totality.

Variable w : World.

Lemma final_health_check_Ok (s s' : State) :
  final_health_check w s = (Ok tt, s') -> poll_final w = None.
Proof.
  unfold final_health_check. destruct (poll_final w); [|reflexivity].
  unfold bind, get, raise. discriminate.
Qed.

Lemma await_ready_Ok (s s' : State) (b : bool) :
  await_ready w s = (Ok b, s') -> b = true /\ poll_final w = None.
Proof.
  unfold await_ready. intros H.
  apply bind_Ok_inv in H as (? & s1 & _ & H).
  apply bind_Ok_inv in H as (? & s2 & _ & H).
  apply bind_Ok_inv in H as (? & s3 & _ & H).
  apply bind_Ok_inv in H as ([] & s4 & Hf & H).
  apply bind_Ok_inv in H as (? & s5 & _ & H).
  apply bind_Ok_inv in H as (? & s6 & _ & H).
  injection H as <- _. split; [reflexivity|].
  eapply final_health_check_Ok, Hf.
Qed.

Lemma start_body_Ok (s s' : State) (b : bool) :
  start_body w s = (Ok b, s') -> b = true /\ poll_final w = None.
Proof.
  unfold start_body. intros H.
  apply bind_Ok_inv in H as (? & s1 & _ & H). eapply await_ready_Ok, H.
Qed.

(** In the first four steps only the prompt of the port check can raise
    what [except Exception] does not catch. *)
Lemma preflight_raises :
  raises_only (fun e => is_Exception e = false -> stdin_reply w = Interrupted)
              (preflight w).
Proof.
  unfold preflight, check_prerequisites, require_command, _check_command_exists,
    check_nat_server, check_ui_port, ensure_repository, _check_port_available.
  raises.
  apply (raises_only_try_except _ (fun e => is_Exception e = true)).
  - raises.
  - intros e He Hn. congruence.
  - intros e. raises.
Qed.



Lemma await_ready_raises :
  raises_only (fun e => is_Exception e = true) (await_ready w).
Proof.
  unfold await_ready, settle, wait_gateway, final_health_check.
  raises;
    first [ apply raises_only_returns, returns_absorb
          | apply raises_only_returns, returns_wait_nextjs
          | unfold _wait_for_port; raises; apply raises_only_returns, returns_wait_loop ].
Qed.


End Totality.



(** ** [start()]: the primary readiness phase *)

Section Gateway.

Variable w : World.

Lemma start_server_Ok (s s' : State) :
  start_server w s = (Ok tt, s') ->
  exists pid, popen w = inr pid /\ ui_process s' = Some pid /\
              trace s' = (trace s ++ [Print "🎨 Starting UI development server...";
                                      Popen (dev_command w) pid])%list.
Proof.
  unfold start_server. destruct (popen w) as [text|pid]; run_monad.
  - discriminate.
  - intros [= <-]. exists pid. cbn. rewrite <- app_assoc. auto.
Qed.

(** When the preparation succeeds, its last action was the spawn of the
    UI process, whose handle is then tracked. *)
Lemma prepare_spawns (s s1 : State) :
  prepare w s = (Ok tt, s1) ->
  exists pid before, popen w = inr pid /\ ui_process s1 = Some pid /\
                     trace s1 = (before ++ [Popen (dev_command w) pid])%list.
Proof.
  unfold prepare. intros H.
  do 3 (apply bind_Ok_inv in H as (? & ? & _ & H)).
  apply start_server_Ok in H as (pid & Hp & Hu & Ht).
  exists pid. eexists. repeat split; try eassumption.
  rewrite Ht. change [?a; ?b] with ([a] ++ [b])%list. now rewrite app_assoc.
Qed.

Lemma wait_gateway_Ok (s s' : State) :
  wait_gateway w s = (Ok tt, s') ->
  existsb negb (gateway_probes w) = true /\ poll_gateway w = None.
Proof.
  unfold wait_gateway, _wait_for_port. intros H.
  apply bind_Ok_inv in H as (s0 & ? & _ & H).
  apply bind_Ok_inv in H as (? & ? & _ & H).
  apply bind_Ok_inv in H as (ready & ? & Hw & H).
  apply bind_Ok_inv in Hw as (? & sw & _ & Hw).
  destruct (wait_loop_result (ui_port s0) (gateway_probes w) sw) as (? & Hr & _).
  rewrite Hr in Hw. injection Hw as <- _.
  apply bind_Ok_inv in H as (? & ? & _ & H).
  apply bind_Ok_inv in H as (? & ? & _ & H).
  destruct (existsb negb (gateway_probes w)), (poll_gateway w);
    try discriminate; auto.
Qed.

Lemma await_ready_Ok_gateway (s s' : State) (b : bool) :
  await_ready w s = (Ok b, s') ->
  existsb negb (gateway_probes w) = true /\ poll_gateway w = None.
Proof.
  unfold await_ready. intros H.
  apply bind_Ok_inv in H as (? & ? & _ & H).
  apply bind_Ok_inv in H as ([] & ? & Hg & _).
  eapply wait_gateway_Ok, Hg.
Qed.

Lemma never_responds (probes : list bool) :
  (forall free, In free probes -> free = true) -> existsb negb probes = false.
Proof.
  induction probes as [|b r IH]; intros H; [reflexivity|].
  cbn [existsb]. rewrite (H b) by now left. apply IH.
  intros free Hin. apply H. now right.
Qed.

End Gateway.

(** C4: when the UI process was spawned and no probe of the gateway port
    finds it answering before the wait gives up, [start()] returns
    [False] after having run [stop()]: the child spawned by this call is
    sent a termination (and a kill if it does not exit within the wait),
    and no handle is tracked when [start()] returns. *)
Theorem gateway_timeout_stops_child (w : World) (s s1 : State) :
  prepare w s = (Ok tt, s1) ->
  (forall free, In free (gateway_probes w) -> free = true) ->
  exists pid s',
    popen w = inr pid /\
    start w s = (Ok false, s') /\
    ui_process s' = None /\
    exists before after,
      trace s' = (before ++ Popen (dev_command w) pid :: after)%list /\
      In (Terminate pid) after /\
      (wait_exits w = false -> In (Kill pid) after).
Proof.
  intros Hprep Hnever.
  destruct (prepare_spawns w s s1 Hprep) as (pid & before & Hpopen & Hproc & Htrace).
  destruct (await_ready w s1) as [[b|e] s3] eqn:E.
  { apply await_ready_Ok_gateway in E as [E _].
    rewrite (never_responds _ Hnever) in E. discriminate. }
  destruct (advances_await_ready w s1 _ s3 E) as (Hp3 & _ & evs & Ht3).
  pose proof (await_ready_raises w _ _ _ E) as Hex. cbv beta in Hex.
  destruct (on_failure_stops w e s3 Hex) as (s4 & s' & Hprint & Hstop & Hfail & Hnone).
  assert (H4 : ui_process s4 = Some pid /\
               trace s4 = (trace s3 ++ [Print (failure_text e)])%list).
  { injection Hprint as <-. split; [cbn; congruence | reflexivity]. }
  destruct H4 as [Hp4 Ht4].
  destruct (stop_tracked w s4 pid Hp4) as (s'' & Hstop' & _ & Ht').
  rewrite Hstop in Hstop'. injection Hstop' as <-.
  exists pid, s'. repeat split; try assumption.
  - unfold start, try_except, start_body.
    now rewrite (bind_ok _ _ _ _ _ Hprep), E, Hex.
  - exists before, (evs ++ [Print (failure_text e)] ++ stop_events w pid)%list.
    repeat split.
    + rewrite Ht', Ht4, Ht3, Htrace.
      rewrite <- !app_assoc. reflexivity.
    + apply in_app_iff. right. apply in_app_iff. right.
      unfold stop_events. simpl. auto.
    + intros Hw. apply in_app_iff. right. apply in_app_iff. right.
      unfold stop_events. rewrite Hw. simpl. auto 10.
Qed.

Lemma gateway_timeout_stops_child_witness :
  exists pid s',
    start (Scenario.host Scenario.all_tools Scenario.installs [true; true; true] [false]
                         Scenario.refused false)
          (Scenario.fresh None) = (Ok false, s') /\
    ui_process s' = None /\ In (Kill pid) (trace s').
Proof.
  set (w := Scenario.host Scenario.all_tools Scenario.installs [true; true; true] [false]
                          Scenario.refused false).
  assert (Hprep : prepare w (Scenario.fresh None) =
                  (Ok tt, snd (prepare w (Scenario.fresh None))))
    by (vm_compute; reflexivity).
  assert (Hnever : forall free, In free (gateway_probes w) -> free = true)
    by (intros free [<-|[<-|[<-|[]]]]; reflexivity).
  destruct (gateway_timeout_stops_child w (Scenario.fresh None) _ Hprep Hnever)
    as (pid & s' & _ & H1 & H2 & before & after & Ht & _ & Hk).
  exists pid, s'. repeat split; try assumption.
  rewrite Ht. apply in_app_iff. right. right. now apply Hk.
Defined.

(** ** [start()]: the install engine *)

(** Case analysis of the two attempts of the engine: the reclassification
    tests first, then the outcome of the run. *)
Ltac install_step H :=
  match type of H with
  | context [if lockfile_mismatch ?x then _ else _] =>
      let C := fresh "C" in destruct (lockfile_mismatch x) eqn:C
  | context [if peer_conflict ?x then _ else _] =>
      let C := fresh "C" in destruct (peer_conflict x) eqn:C
  | context [match npm_run ?w ?a ?c with _ => _ end] =>
      let R := fresh "R" in destruct (npm_run w a c) eqn:R
  end.

Ltac install_cases H :=
  try unfold install_dependencies in H; cbn [seq max_retries install_loop] in H;
  cbv [max_retries Nat.ltb Nat.leb Nat.sub andb] in H;
  run_monad_in H;
  repeat (install_step H; cbv [andb] in H; run_monad_in H).

(** The events a leaf of the case analysis added to the trace. *)
Ltac leaf_events :=
  unfold new_events; cbn [trace]; rewrite <- ?app_assoc;
  rewrite skipn_app, skipn_all, Nat.sub_diag; cbn [skipn app runs_of length].

Section InstallFacts.

Variable w : World.

(** The install command is run at most [max_retries] times, whatever the
    failures are. *)
Lemma install_runs_bounded (s s' : State) (r : Res InstallEnd) :
  install_dependencies w s = (r, s') ->
  length (runs_of (new_events s s')) <= max_retries.
Proof.
  destruct s as [path proc up np out env tr]. intros H.
  install_cases H; injection H as <- <-; leaf_events; unfold max_retries; lia.
Qed.


End InstallFacts.

(** The claim C1 as stated fails. On a host where [npm ci] fails with a
    lockfile mismatch and the following [npm install] times out, the
    engine gives up after that single timeout: the reclassified failure
    has used the first of the two attempts. *)
Lemma reclassified_failure_is_charged :
  let w := Scenario.host Scenario.all_tools
             (Scenario.script [Scenario.lockfile_error; TimeoutExpired])
             [false] [false] Scenario.refused true in
  (exists s', install_dependencies w (Scenario.fresh None) =
                (Raise (RuntimeError "❌ npm install timed out after retries"), s') /\
              runs_of (trace s') = [Argv ["npm"; "ci"]; Argv ["npm"; "install"]] /\
              reclassifications (trace s') = 1) /\
  ~ reclassification_is_free w (Scenario.fresh None).
Proof.
  intros w. split.
  - eexists. split; [vm_compute; reflexivity|]. split; reflexivity.
  - intros H.
    assert (E : install_dependencies w (Scenario.fresh None) =
                (Raise (RuntimeError timeout_msg),
                 snd (install_dependencies w (Scenario.fresh None))))
      by (vm_compute; reflexivity).
    apply H in E. vm_compute in E. discriminate.
Qed.

(** C1, amended: a first install attempt whose failure output matches a
    lockfile-mismatch marker (or else a peer-dependency marker) flips the
    corresponding sticky flag, and the next attempt runs the substituted
    variant ([npm install], or [npm ci --legacy-peer-deps]); that next
    attempt is the second and last of the budget: when it completes the
    install is done with the flag still set, when it times out the engine
    gives up. In every run the install command is run at most
    [max_retries] = 2 times, reclassified attempts included. *)
Theorem reclassified_attempt_uses_budget (w : World) (s : State)
    (stderr stdout : option string) (returncode : Z) :
  npm_run w 0 (install_command w false false) =
    CalledProcessError stderr stdout returncode ->
  lockfile_mismatch (or_empty stderr ++ or_empty stdout) = true \/
  peer_conflict (or_empty stderr ++ or_empty stdout) = true ->
  let npm := lockfile_mismatch (or_empty stderr ++ or_empty stdout) in
  let legacy := negb npm in
  (exists r s',
     install_dependencies w s = (r, s') /\
     runs_of (new_events s s') =
       [install_command w false false; install_command w npm legacy] /\
     1 <= reclassifications (new_events s s') /\
     (npm_run w 1 (install_command w npm legacy) = Completed ->
      r = Ok (mkInstallEnd npm legacy true)) /\
     (npm_run w 1 (install_command w npm legacy) = TimeoutExpired ->
      r = Raise (RuntimeError timeout_msg))) /\
  (forall w0 s0 r0 s0', install_dependencies w0 s0 = (r0, s0') ->
                        length (runs_of (new_events s0 s0')) <= max_retries).
Proof.
  intros H0 Hm npm legacy. split; [|intros w0 s0 r0 s0'; apply install_runs_bounded].
  destruct (install_dependencies w s) as [r s'] eqn:H. exists r, s'.
  split; [reflexivity|].
  destruct s as [path proc up np out env tr].
  unfold install_dependencies in H; cbn [seq max_retries install_loop] in H.
  rewrite H0 in H. subst npm legacy.
  install_cases H; injection H as <- <-;
    try (destruct Hm; discriminate);
    (split; [leaf_events; reflexivity|]);
    (split; [leaf_events; simpl; lia|]);
    cbn [negb]; split; intros E; first [reflexivity | congruence].
Qed.

Lemma reclassified_attempt_uses_budget_witness :
  let w := Scenario.host Scenario.all_tools
             (Scenario.script [Scenario.lockfile_error])
             [false] [false] Scenario.refused true in
  exists r s',
    install_dependencies w (Scenario.fresh None) = (r, s') /\
    runs_of (new_events (Scenario.fresh None) s') =
      [Argv ["npm"; "ci"]; Argv ["npm"; "install"]] /\
    r = Ok (mkInstallEnd true false true).
Proof.
  intros w.
  destruct (proj1 (reclassified_attempt_uses_budget w (Scenario.fresh None)
                     _ _ _ eq_refl (or_introl eq_refl)))
    as (r & s' & H1 & H2 & _ & H3 & _).
  exists r, s'. split; [exact H1|]. split; [exact H2|]. exact (H3 eq_refl).
Defined.





(** ** [start()]: the secondary readiness phases *)

(** One step of a run whose first action returns a known value; the
    fields of the new state are reduced at once. *)
Ltac flat_state :=
  cbn [ui_path ui_process ui_port nat_port process_output env_file trace].
Ltac step_ok := erewrite bind_ok by reflexivity; flat_state.

Section Secondary.

Variable w : World.

Lemma absorb_cons (st : stream) (line : string) (rest : list (stream * string))
    (s : State) :
  absorb ((st, line) :: rest) s =
  absorb rest
    (mkState (ui_path s) (ui_process s) (ui_port s) (nat_port s)
             (append_line (entry st line) (process_output s)) (env_file s)
             (trace s ++ map Print (surfaced st (rstrip line)))%list).
Proof.
  cbn [absorb]. unfold surfaced.
  destruct st; [destruct (any_in _ _)|]; cbn [fold_right map];
    rewrite ?app_nil_r; run_monad; reflexivity.
Qed.

(** The capture threads, as seen by the foreground: the buffer after a
    batch of arrivals is the bounded buffer of [append_line]. *)
Lemma absorb_result (arrivals : list (stream * string)) (s : State) :
  exists s', absorb arrivals s = (Ok tt, s') /\
             process_output s' =
               run_appends (map (fun a => entry (fst a) (snd a)) arrivals)
                           (process_output s).
Proof.
  revert s. induction arrivals as [|[st line] r IH]; intros s.
  - exists s. split; reflexivity.
  - rewrite absorb_cons.
    match goal with |- context [absorb r ?st] => destruct (IH st) as (s' & E & Hp) end.
    exists s'. split; [exact E | exact Hp].
Qed.

Lemma marker_free_append_line (e : string) (buf : list string) :
  marker_free buf -> contains "Compiled" e = false ->
  marker_free (append_line e buf).
Proof.
  intros Hb He line Hin. unfold append_line in Hin.
  assert (Hin' : In line (buf ++ [e])%list).
  { destruct (100 <? length (buf ++ [e])%list)%nat; [|exact Hin].
    destruct (buf ++ [e])%list; [destruct Hin | now right]. }
  apply in_app_iff in Hin' as [H|[<-|[]]]; [now apply Hb | exact He].
Qed.

Lemma marker_free_run_appends (es buf : list string) :
  marker_free buf -> marker_free es -> marker_free (run_appends es buf).
Proof.
  revert buf. induction es as [|e r IH]; intros buf Hb He; [exact Hb|].
  apply IH.
  - apply marker_free_append_line; [exact Hb | apply He; now left].
  - intros line Hin. apply He. now right.
Qed.

Lemma marker_free_not_done (buf : list string) :
  marker_free buf -> compilation_done (join nl (last_n 10 buf)) = false.
Proof.
  intros Hb. unfold compilation_done.
  assert (Hno : contains "Compiled" (join nl (last_n 10 buf)) = false).
  { destruct (contains "Compiled" (join nl (last_n 10 buf))) eqn:E; [|reflexivity].
    apply contains_join in E as (l & Hin & Hl); [|reflexivity|discriminate].
    apply In_last_n in Hin. rewrite (Hb l Hin) in Hl. discriminate. }
  destruct (contains "✓ Compiled" _) eqn:E1.
  { apply (contains_inner "✓ " "Compiled" "") in E1. congruence. }
  destruct (contains "Compiled in" _) eqn:E2.
  { apply (contains_inner "" "Compiled" " in") in E2. congruence. }
  reflexivity.
Qed.

(** Without a marker in the buffer or in the arrivals, the compilation
    wait ends with [compiled = False]. *)
Lemma compile_loop_never (rounds : list (list (stream * string) * option Z))
    (s : State) :
  marker_free (process_output s) ->
  (forall round, In round rounds -> quiet (fst round)) ->
  exists s', compile_loop rounds s = (Ok false, s').
Proof.
  revert s. induction rounds as [|[arrivals poll] r IH]; intros s Hs Hq.
  - eexists. reflexivity.
  - cbn [compile_loop]. step_ok.
    match goal with |- context [bind (absorb arrivals) _ ?st] =>
      destruct (absorb_result arrivals st) as (sb & Ea & Hp) end.
    rewrite (bind_ok _ _ _ _ _ Ea). step_ok.
    assert (Hb : marker_free (process_output sb)).
    { rewrite Hp. apply marker_free_run_appends; [exact Hs|].
      apply (Hq (arrivals, poll)). now left. }
    rewrite (marker_free_not_done _ Hb).
    destruct poll; [eexists; reflexivity|].
    apply IH; [exact Hb | intros round Hin; apply Hq; now right].
Qed.

(** The trace of a state built from [s] by a few emits. *)
Ltac trace_now := cbn [trace]; rewrite <- ?app_assoc; reflexivity.
Ltac advances_now := repeat split; eexists; trace_now.
Ltac in_now := cbn [In]; repeat first [left; reflexivity | right].
Ltac mentions_now := eexists; split; [trace_now | in_now].

Lemma _wait_for_port_result (port : N) (probes : list bool) (s : State) :
  exists s', _wait_for_port port probes s = (Ok (existsb negb probes), s') /\
             process_output s' = process_output s /\ advances s s'.
Proof.
  unfold _wait_for_port. step_ok.
  match goal with |- context [wait_loop _ _ ?st] =>
    destruct (wait_loop_result port probes st) as (s' & Ew & Hp);
    pose proof (advances_wait_loop _ _ _ _ _ Ew) as Ha end.
  exists s'. split; [exact Ew|]. split; [exact Hp|].
  eapply advances_trans; [|exact Ha]. advances_now.
Qed.

Lemma settle_runs (s : State) :
  poll_settle w = None ->
  exists s', settle w s = (Ok tt, s') /\
             process_output s' =
               run_appends (map (fun a => entry (fst a) (snd a)) (settle_output w))
                           (process_output s).
Proof.
  intros Hpoll. unfold settle. step_ok.
  match goal with |- context [bind (absorb ?l) _ ?st] =>
    destruct (absorb_result l st) as (sb & Ea & Hp) end.
  rewrite (bind_ok _ _ _ _ _ Ea), Hpoll.
  exists sb. split; [reflexivity | exact Hp].
Qed.

Lemma wait_gateway_runs (s : State) :
  existsb negb (gateway_probes w) = true ->
  poll_gateway w = None ->
  exists s', wait_gateway w s = (Ok tt, s') /\
             process_output s' =
               run_appends (map (fun a => entry (fst a) (snd a)) (gateway_output w))
                           (process_output s).
Proof.
  intros Hresp Hpoll. unfold wait_gateway.
  step_ok. step_ok.
  match goal with |- context [bind (_wait_for_port ?p ?l) _ ?st] =>
    destruct (_wait_for_port_result p l st) as (sw & Ew & Hpw & _) end.
  rewrite (bind_ok _ _ _ _ _ Ew).
  match goal with |- context [bind (absorb ?l) _ ?st] =>
    destruct (absorb_result l st) as (sb & Ea & Hp) end.
  rewrite (bind_ok _ _ _ _ _ Ea). step_ok.
  rewrite Hresp, Hpoll. eexists. split; [reflexivity|].
  cbn [process_output]. rewrite Hp, Hpw. reflexivity.
Qed.

(** The dev-server port never answers: a warning, no error. *)
Lemma wait_nextjs_unready (s : State) :
  existsb negb (nextjs_probes w) = false ->
  exists s', wait_nextjs w s = (Ok tt, s') /\ mentions (Print nextjs_warning) s s'.
Proof.
  intros Hnot. unfold wait_nextjs. step_ok.
  match goal with |- context [bind (_wait_for_port ?p ?l) _ ?st] =>
    destruct (_wait_for_port_result p l st) as (sw & Ew & _ & Ha) end.
  rewrite (bind_ok _ _ _ _ _ Ew), Hnot. step_ok.
  eexists. split; [reflexivity|].
  eapply (mentions_after _ _ sw); [|mentions_now].
  eapply advances_trans; [|exact Ha]. advances_now.
Qed.

(** The dev-server port answers but the marker never appears: a warning. *)
Lemma wait_nextjs_compiling (s : State) :
  existsb negb (nextjs_probes w) = true ->
  marker_free (process_output s) ->
  (forall round, In round (compile_rounds w) -> quiet (fst round)) ->
  exists s', wait_nextjs w s = (Ok tt, s') /\ mentions (Print compiling_warning) s s'.
Proof.
  intros Hresp Hs Hq. unfold wait_nextjs. step_ok.
  match goal with |- context [bind (_wait_for_port ?p ?l) _ ?st] =>
    destruct (_wait_for_port_result p l st) as (sw & Ew & Hpw & Ha) end.
  rewrite (bind_ok _ _ _ _ _ Ew), Hresp.
  step_ok. step_ok.
  match goal with |- context [bind (compile_loop ?l) _ ?st] =>
    destruct (compile_loop_never l st) as (sc & Ec);
      [cbn [process_output]; rewrite Hpw; exact Hs | exact Hq |];
    pose proof (advances_compile_loop _ _ _ _ Ec) as Hc end.
  rewrite (bind_ok _ _ _ _ _ Ec).
  step_ok. step_ok.
  match goal with |- context [http_loop w ?l ?st] =>
    destruct (returns_http_loop w l st) as ([] & sh & Eh);
    pose proof (advances_http_loop w _ _ _ _ Eh) as Hh end.
  exists sh. split; [exact Eh|].
  eapply mentions_then; [|exact Hh].
  eapply (mentions_after _ _ sc); [|mentions_now].
  eapply advances_trans; [|exact Hc].
  eapply (advances_trans _ sw); [|advances_now].
  eapply advances_trans; [|exact Ha]. advances_now.
Qed.

(** All five reachability probes fail: a warning after the last one. *)
Lemma http_loop_fails (s : State) :
  http_unreachable w ->
  exists text s', http_replies w 4 = HttpError text /\
                  http_loop w (seq 0 5) s = (Ok tt, s') /\
                  mentions (Print (http_warning text)) s s'.
Proof.
  intros H.
  destruct (H 0) as [t0 H0]; [lia|]. destruct (H 1) as [t1 H1]; [lia|].
  destruct (H 2) as [t2 H2]; [lia|]. destruct (H 3) as [t3 H3]; [lia|].
  destruct (H 4) as [t4 H4]; [lia|].
  exists t4. cut (exists s', http_loop w (seq 0 5) s = (Ok tt, s') /\
                            mentions (Print (http_warning t4)) s s').
  { intros (s' & E & Hm). exists s'. auto. }
  cbn [seq http_loop]. rewrite H0, H1, H2, H3, H4.
  cbv [Nat.ltb Nat.leb]. repeat step_ok.
  match goal with |- context [bind show_recent_output _ ?st] =>
    destruct (returns_show_recent_output st) as ([] & sr & Er);
    pose proof (advances_show_recent_output _ _ _ Er) as Hr end.
  rewrite (bind_ok _ _ _ _ _ Er). exists sr. split; [reflexivity|].
  eapply mentions_then; [|exact Hr]. unfold http_warning. mentions_now.
Qed.

Lemma wait_nextjs_unreachable (s : State) :
  existsb negb (nextjs_probes w) = true ->
  http_unreachable w ->
  exists text s', http_replies w 4 = HttpError text /\
                  wait_nextjs w s = (Ok tt, s') /\
                  mentions (Print (http_warning text)) s s'.
Proof.
  intros Hresp Hh. unfold wait_nextjs. step_ok.
  match goal with |- context [bind (_wait_for_port ?p ?l) _ ?st] =>
    destruct (_wait_for_port_result p l st) as (sw & Ew & _ & Ha) end.
  rewrite (bind_ok _ _ _ _ _ Ew), Hresp.
  step_ok. step_ok.
  match goal with |- context [bind (compile_loop ?l) _ ?st] =>
    destruct (returns_compile_loop l st) as (compiled & sc & Ec);
    pose proof (advances_compile_loop _ _ _ _ Ec) as Hc end.
  rewrite (bind_ok _ _ _ _ _ Ec).
  assert (Hpre : advances s sc).
  { eapply advances_trans; [|exact Hc].
    eapply (advances_trans _ sw); [|advances_now].
    eapply advances_trans; [|exact Ha]. advances_now. }
  destruct compiled; step_ok;
    step_ok;
    match goal with |- context [http_loop w _ ?st] =>
      destruct (http_loop_fails st Hh) as (text & sh & Ht & Eh & Hm) end;
    exists text, sh; (split; [exact Ht|]); (split; [exact Eh|]);
    (eapply mentions_after; [|exact Hm]);
    (eapply advances_trans; [exact Hpre | advances_now]).
Qed.

(** With the gateway up and the child alive at each check, the readiness
    sequence runs to [return True], whatever the secondary phases find. *)
Lemma await_ready_succeeds (s1 : State) :
  poll_settle w = None ->
  existsb negb (gateway_probes w) = true ->
  poll_gateway w = None ->
  poll_final w = None ->
  exists s2 s3 s4 s',
    settle w s1 = (Ok tt, s2) /\ wait_gateway w s2 = (Ok tt, s3) /\
    wait_nextjs w s3 = (Ok tt, s4) /\ await_ready w s1 = (Ok true, s') /\
    advances s1 s3 /\ advances s4 s' /\
    process_output s3 =
      run_appends (map (fun a => entry (fst a) (snd a)) (gateway_output w))
        (run_appends (map (fun a => entry (fst a) (snd a)) (settle_output w))
                     (process_output s1)).
Proof.
  intros Hs Hg Hpg Hf.
  destruct (settle_runs s1 Hs) as (s2 & E2 & P2).
  destruct (wait_gateway_runs s2 Hg Hpg) as (s3 & E3 & P3).
  destruct (returns_wait_nextjs w s3) as ([] & s4 & E4).
  assert (Hr : exists s', await_ready w s1 = (Ok true, s') /\ advances s4 s').
  { unfold await_ready.
    rewrite (bind_ok _ _ _ _ _ E2), (bind_ok _ _ _ _ _ E3), (bind_ok _ _ _ _ _ E4).
    unfold final_health_check. rewrite Hf.
    step_ok. step_ok. step_ok. eexists. split; [reflexivity | advances_now]. }
  destruct Hr as (s' & E & Ha).
  exists s2, s3, s4, s'.
  split; [exact E2|]. split; [exact E3|]. split; [exact E4|]. split; [exact E|].
  split; [|split; [exact Ha | now rewrite P3, P2]].
  eapply advances_trans; [eapply advances_settle, E2 | eapply advances_wait_gateway, E3].
Qed.

End Secondary.

(** C7: once the UI process is spawned, if the gateway port answers and
    the child is alive at each health check, [start()] returns [True] with
    the child still tracked, whatever the secondary phases find. Their
    failures only print a warning: when the dev-server port never answers,
    when it answers but no captured line ever carries the compilation
    marker, and when all five HTTP probes fail. *)
Theorem secondary_failures_are_warnings (w : World) (s s1 : State) :
  prepare w s = (Ok tt, s1) ->
  poll_settle w = None ->
  existsb negb (gateway_probes w) = true ->
  poll_gateway w = None ->
  poll_final w = None ->
  exists s',
    start w s = (Ok true, s') /\
    (exists pid, popen w = inr pid /\ ui_process s' = Some pid) /\
    ((forall free, In free (nextjs_probes w) -> free = true) ->
       mentions (Print nextjs_warning) s1 s') /\
    (existsb negb (nextjs_probes w) = true -> never_compiled w s1 ->
       mentions (Print compiling_warning) s1 s') /\
    (existsb negb (nextjs_probes w) = true -> http_unreachable w ->
       exists text, http_replies w 4 = HttpError text /\
                    mentions (Print (http_warning text)) s1 s').
Proof.
  intros Hprep Hs Hg Hpg Hf.
  destruct (await_ready_succeeds w s1 Hs Hg Hpg Hf)
    as (s2 & s3 & s4 & s' & E2 & E3 & E4 & E & A13 & A4 & P3).
  exists s'. split; [|split; [|split; [|split]]].
  - unfold start, try_except, start_body.
    now rewrite (bind_ok _ _ _ _ _ Hprep), E.
  - destruct (prepare_spawns w s s1 Hprep) as (pid & _ & Hp & Hu & _).
    exists pid. split; [exact Hp|].
    destruct (advances_await_ready w s1 _ s' E) as (Hu' & _). congruence.
  - intros Hnever.
    destruct (wait_nextjs_unready w s3 (never_responds _ Hnever)) as (s4' & E4' & M).
    rewrite E4 in E4'. injection E4' as <-.
    eapply mentions_after; [exact A13|]. eapply mentions_then; [exact M | exact A4].
  - intros Hresp (Hm1 & Hq1 & Hq2 & Hq3).
    assert (Hm3 : marker_free (process_output s3)).
    { rewrite P3. repeat apply marker_free_run_appends; assumption. }
    destruct (wait_nextjs_compiling w s3 Hresp Hm3 Hq3) as (s4' & E4' & M).
    rewrite E4 in E4'. injection E4' as <-.
    eapply mentions_after; [exact A13|]. eapply mentions_then; [exact M | exact A4].
  - intros Hresp Hh.
    destruct (wait_nextjs_unreachable w s3 Hresp Hh) as (text & s4' & Ht & E4' & M).
    rewrite E4 in E4'. injection E4' as <-.
    exists text. split; [exact Ht|].
    eapply mentions_after; [exact A13|]. eapply mentions_then; [exact M | exact A4].
Qed.

Lemma secondary_failures_are_warnings_witness :
  let w := Scenario.host Scenario.all_tools Scenario.installs [true; false] [false]
                         Scenario.refused true in
  exists s', start w (Scenario.fresh None) = (Ok true, s') /\
             ui_process s' = Some 4242 /\
             In (Print compiling_warning) (trace s') /\
             In (Print (http_warning "Connection refused")) (trace s').
Proof.
  intros w.
  let s1 := eval vm_compute in (snd (prepare w (Scenario.fresh None))) in
  assert (Hprep : prepare w (Scenario.fresh None) = (Ok tt, s1))
    by (vm_compute; reflexivity).
  destruct (secondary_failures_are_warnings w _ _ Hprep eq_refl eq_refl eq_refl eq_refl)
    as (s' & H1 & (pid & Hp & Hu) & _ & Hc & Hh).
  exists s'. split; [exact H1|]. split; [|split].
  - injection Hp as <-. exact Hu.
  - destruct (Hc eq_refl) as (evs & Ht & Hin).
    + repeat split.
      * intros line [].
      * intros line [<-|[]]. reflexivity.
      * intros line [<-|[]]. reflexivity.
      * intros round [<-|[]] line [<-|[]]. reflexivity.
    + rewrite Ht. apply in_app_iff. now right.
  - destruct (Hh eq_refl) as (text & Ht & evs & Htr & Hin).
    + intros attempt _. now exists "Connection refused".
    + injection Ht as <-. rewrite Htr. apply in_app_iff. now right.
Defined.

(** * Further properties *)

(** ** [env_setup.py]: the export of variables *)

Section ExportFacts.

Lemma escape_posix_cons (c : ascii) (t : string) :
  escape_posix (String c t) = escape_posix_char c ++ escape_posix t.
Proof.
  unfold escape_posix, escape_posix_char. cbn [replace_char].
  destruct (Ascii.eqb c backslash) eqn:E1.
  { apply Ascii.eqb_eq in E1. subst c. reflexivity. }
  cbn [replace_char].
  destruct (Ascii.eqb c quote) eqn:E2.
  { apply Ascii.eqb_eq in E2. subst c. reflexivity. }
  cbn [replace_char].
  destruct (Ascii.eqb c dollar) eqn:E3.
  { apply Ascii.eqb_eq in E3. subst c. reflexivity. }
  cbn [replace_char].
  destruct (Ascii.eqb c backtick) eqn:E4.
  { apply Ascii.eqb_eq in E4. subst c. reflexivity. }
  reflexivity.
Qed.

Lemma escape_win32_cons (c : ascii) (t : string) :
  escape_win32 (String c t) = escape_win32_char c ++ escape_win32 t.
Proof.
  unfold escape_win32, escape_win32_char. cbn [replace_char].
  destruct (Ascii.eqb c quote) eqn:E1.
  { apply Ascii.eqb_eq in E1. subst c. reflexivity. }
  cbn [replace_char].
  destruct (Ascii.eqb c dollar) eqn:E2.
  { apply Ascii.eqb_eq in E2. subst c. reflexivity. }
  reflexivity.
Qed.

Lemma unescape_escape_posix (value : string) :
  unescape (escape_posix value) = value.
Proof.
  induction value as [|c t IH]; [reflexivity|].
  rewrite escape_posix_cons. unfold escape_posix_char.
  destruct (Ascii.eqb c backslash || Ascii.eqb c quote || Ascii.eqb c dollar ||
            Ascii.eqb c backtick) eqn:E.
  - cbn [bs append unescape]. now rewrite Ascii.eqb_refl, IH.
  - apply orb_false_iff in E as [E _]. apply orb_false_iff in E as [E _].
    apply orb_false_iff in E as [E _]. cbn [append unescape]. now rewrite E, IH.
Qed.

End ExportFacts.

(** X1: the chained [replace] calls of [export_env_vars] escape each
    character of a value exactly once, on both platforms: the replacement
    text of one call is never rewritten by a later call. *)
Theorem export_escapes_in_one_pass (value : string) :
  escape_posix value = concat_map escape_posix_char value /\
  escape_win32 value = concat_map escape_win32_char value.
Proof.
  split; induction value as [|c t IH]; try reflexivity.
  - rewrite escape_posix_cons, IH. reflexivity.
  - rewrite escape_win32_cons, IH. reflexivity.
Qed.

(** X2: on Unix the escaping loses nothing: two values with the same
    escaped text are the same value. *)
Theorem escape_posix_injective (v1 v2 : string) :
  escape_posix v1 = escape_posix v2 -> v1 = v2.
Proof.
  intros H. rewrite <- (unescape_escape_posix v1), <- (unescape_escape_posix v2).
  now rewrite H.
Qed.

Lemma escape_posix_injective_witness :
  escape_posix (bs quote ++ "$HOME") = escape_posix (bs quote ++ "$HOME") /\
  bs quote ++ "$HOME" = bs quote ++ "$HOME".
Proof.
  split; [reflexivity|].
  exact (escape_posix_injective (bs quote ++ "$HOME") (bs quote ++ "$HOME") eq_refl).
Defined.

(** X3: [find_env_file] returns the [.env] of the nearest directory that
    has one, starting at the directory of the script and walking up;
    whether a [pyproject.toml] exists changes nothing. *)
Theorem find_env_file_nearest {P : Type} (child : P -> string -> P)
    (exists_ : P -> bool) (current : P) (parents : list P) :
  find_env_file child exists_ current parents =
  option_map (fun d => child d ".env")
             (find (fun d => exists_ (child d ".env")) (current :: parents)).
Proof.
  assert (Hs : forall dirs,
             search_parents child exists_ dirs =
             option_map (fun d => child d ".env")
                        (find (fun d => exists_ (child d ".env")) dirs)).
  { induction dirs as [|d r IH]; [reflexivity|]. cbn [search_parents find].
    destruct (exists_ (child d ".env")); [reflexivity|].
    now destruct (exists_ (child d "pyproject.toml")). }
  unfold find_env_file. rewrite Hs. cbn [find].
  now destruct (exists_ (child current ".env")).
Qed.

(** The trace of a state built from [s] by a few emits. *)
Ltac trace_now := cbn [trace]; rewrite <- ?app_assoc; reflexivity.
Ltac advances_now := repeat split; eexists; trace_now.

(** ** The port wait *)

Lemma first_taken_existsb (probes : list bool) :
  existsb negb probes = match first_taken probes with Some _ => true | None => false end.
Proof.
  induction probes as [|free r IH]; [reflexivity|]. cbn [existsb first_taken].
  destruct free; cbn [negb orb]; [|reflexivity].
  rewrite IH. now destruct (first_taken r).
Qed.

Lemma wait_loop_trace (port : N) (probes : list bool) (s : State) :
  exists s', wait_loop port probes s = (Ok (existsb negb probes), s') /\
             trace s' =
               (trace s ++
                match first_taken probes with
                | Some k => idle_rounds port k ++ [Connect port]
                | None => idle_rounds port (length probes)
                end)%list.
Proof.
  revert s. induction probes as [|free r IH]; intros s.
  - exists s. split; [reflexivity|]. cbn. now rewrite app_nil_r.
  - cbn [wait_loop existsb first_taken length]. unfold _check_port_available.
    step_ok. destruct free; cbn [negb orb].
    + step_ok.
      match goal with |- context [wait_loop port r ?st] =>
        destruct (IH st) as (s' & E & Ht) end.
      exists s'. split; [exact E|]. rewrite Ht. cbn [trace].
      destruct (first_taken r); cbn [option_map idle_rounds];
        rewrite <- !app_assoc; reflexivity.
    + eexists. split; [reflexivity|]. reflexivity.
Qed.

(** X4: [_wait_for_port] probes the port once per round, sleeps two
    seconds after each probe that finds the port free, and stops at the
    first probe that finds it taken, returning [True]; when no probe does,
    it returns [False] after the last sleep. *)
Theorem wait_for_port_probes (port : N) (probes : list bool) (s : State) :
  exists s',
    _wait_for_port port probes s =
      (Ok (match first_taken probes with Some _ => true | None => false end), s') /\
    trace s' =
      (trace s ++
       Print ("⏳ Waiting for service on port " ++ str_N port ++ "...") ::
       match first_taken probes with
       | Some k => idle_rounds port k ++ [Connect port]
       | None => idle_rounds port (length probes)
       end)%list.
Proof.
  unfold _wait_for_port. step_ok.
  match goal with |- context [wait_loop port probes ?st] =>
    destruct (wait_loop_trace port probes st) as (s' & E & Ht) end.
  exists s'. split.
  - rewrite E. now rewrite first_taken_existsb.
  - rewrite Ht. cbn [trace]. now rewrite <- app_assoc.
Qed.

(** ** What a result of [start()] tells *)

Section StartResult.

Variable w : World.

Lemma check_prerequisites_Ok (s s' : State) :
  check_prerequisites w s = (Ok tt, s') ->
  version_query w (version_command w "git") = true /\
  version_query w (version_command w "node") = true /\
  version_query w (version_command w "npm") = true.
Proof.
  intros H.
  destruct (version_query w (version_command w "git")) eqn:G;
    [destruct (version_query w (version_command w "node")) eqn:No;
       [destruct (version_query w (version_command w "npm")) eqn:Np|]|];
    [auto | | | ];
    (destruct (check_prerequisites_raises w s) as (msg & s1 & E);
     [rewrite ?G, ?No, ?Np; auto | rewrite E in H; discriminate]).
Qed.

Lemma settle_Ok (s s' : State) : settle w s = (Ok tt, s') -> poll_settle w = None.
Proof.
  unfold settle. intros H.
  apply bind_Ok_inv in H as (? & ? & _ & H).
  apply bind_Ok_inv in H as (? & ? & _ & H).
  destruct (poll_settle w); [|reflexivity].
  unfold bind, get, raise in H. discriminate.
Qed.

Lemma start_true_body (s s' : State) :
  start w s = (Ok true, s') -> start_body w s = (Ok true, s').
Proof.
  unfold start, try_except. destruct (start_body w s) as [[b|e] s1] eqn:E.
  - now intros [= -> ->].
  - destruct (is_Exception e) eqn:Ex; [|discriminate].
    destruct (on_failure_stops w e s1 Ex) as (? & ? & _ & _ & Hf & _).
    rewrite Hf. discriminate.
Qed.

Lemma start_false_untracked (s s' : State) :
  start w s = (Ok false, s') -> ui_process s' = None.
Proof.
  unfold start, try_except. destruct (start_body w s) as [[b|e] s1] eqn:E.
  - destruct (start_body_Ok w s s1 b E) as [-> _]. discriminate.
  - destruct (is_Exception e) eqn:Ex; [|discriminate].
    destruct (on_failure_stops w e s1 Ex) as (? & s2 & _ & _ & Hf & Hn).
    rewrite Hf. now intros [= <-].
Qed.

End StartResult.

(** X5: [start()] returns [True] only if the three required tools
    answered their version query, the UI process was spawned and is the
    one tracked afterwards, the gateway port answered one of the probes,
    and the child was found alive at the three health checks. *)
Theorem start_true_only_if (w : World) (s s' : State) :
  start w s = (Ok true, s') ->
  (version_query w (version_command w "git") = true /\
   version_query w (version_command w "node") = true /\
   version_query w (version_command w "npm") = true) /\
  (exists pid, popen w = inr pid /\ ui_process s' = Some pid) /\
  existsb negb (gateway_probes w) = true /\
  poll_settle w = None /\ poll_gateway w = None /\ poll_final w = None.
Proof.
  intros H. apply start_true_body in H. unfold start_body in H.
  apply bind_Ok_inv in H as ([] & s1 & Hprep & Hready).
  destruct (prepare_spawns w s s1 Hprep) as (pid & _ & Hp & Hu & _).
  destruct (advances_await_ready w s1 _ s' Hready) as (Hu' & _).
  destruct (await_ready_Ok w s1 s' true Hready) as [_ Hf].
  destruct (await_ready_Ok_gateway w s1 s' true Hready) as [Hg Hpg].
  unfold await_ready in Hready.
  apply bind_Ok_inv in Hready as ([] & s2 & Hs & _). apply settle_Ok in Hs.
  unfold prepare, preflight in Hprep.
  apply bind_Ok_inv in Hprep as ([] & s0 & Hpre & _).
  apply bind_Ok_inv in Hpre as ([] & sc & Hc & _).
  apply check_prerequisites_Ok in Hc.
  split; [exact Hc|]. split; [exists pid; split; congruence|]. auto.
Qed.

Lemma start_true_only_if_witness :
  let w := Scenario.host Scenario.all_tools Scenario.installs [true; false] [true]
                         Scenario.refused true in
  exists pid, popen w = inr pid /\ poll_final w = None.
Proof.
  intros w.
  let s' := eval vm_compute in (snd (start w (Scenario.fresh None))) in
  assert (H : start w (Scenario.fresh None) = (Ok true, s'))
    by (vm_compute; reflexivity);
  destruct (start_true_only_if w _ _ H) as (_ & (pid & Hp & _) & _ & _ & _ & Hf).
  exists pid. split; assumption.
Defined.

(** X6: [get_status()] follows the result of [start()]. After a [start()]
    that returned [False] it is "Not started", because [stop()] has
    cleared the handle; after one that returned [True] it names the pid
    of the spawned child while [poll()] is [None], and the exit code once
    the child has exited. *)
Theorem status_after_start (w : World) (s s' : State) (b : bool) :
  start w s = (Ok b, s') ->
  (b = false -> forall poll, get_status poll s' = "Not started") /\
  (b = true ->
   exists pid, popen w = inr pid /\
     get_status None s' = "Running (PID: " ++ str_nat pid ++ ")" /\
     forall code, get_status (Some code) s' =
                  "Stopped (exit code: " ++ str_Z code ++ ")").
Proof.
  intros H. split; intros ->.
  - intros poll. unfold get_status. now rewrite (start_false_untracked w s s' H).
  - apply start_true_body in H. unfold start_body in H.
    apply bind_Ok_inv in H as ([] & s1 & Hprep & Hready).
    destruct (prepare_spawns w s s1 Hprep) as (pid & _ & Hp & Hu & _).
    destruct (advances_await_ready w s1 _ s' Hready) as (Hu' & _).
    exists pid. unfold get_status. rewrite Hu', Hu. auto.
Qed.

Lemma status_after_start_witness :
  let w := Scenario.host (fun _ => false) Scenario.installs [] [] Scenario.refused true in
  exists s', start w (Scenario.fresh None) = (Ok false, s') /\
             get_status None s' = "Not started".
Proof.
  intros w.
  let s' := eval vm_compute in (snd (start w (Scenario.fresh None))) in
  assert (H : start w (Scenario.fresh None) = (Ok false, s'))
    by (vm_compute; reflexivity);
  exists s'; split; [exact H|];
  exact (proj1 (status_after_start w _ _ _ H) eq_refl None).
Defined.

(** X7: after [stop()] the exit hook [_cleanup] finds nothing to do: it
    sends no signal and changes nothing, whatever [poll()] would say.
    And after [stop()] the status is "Not started". *)
Theorem cleanup_after_stop (w1 w2 : World) (poll : option Z) (s : State) :
  exists s1, stop w1 s = (Ok tt, s1) /\
             _cleanup w2 poll s1 = (Ok tt, s1) /\
             get_status poll s1 = "Not started".
Proof.
  destruct (stop_clears w1 s) as (s1 & H1 & H2).
  exists s1. split; [exact H1|]. unfold _cleanup, get_status, bind, get.
  now rewrite H2.
Qed.

(** X8: [_cleanup] never clears the tracked handle and prints nothing. On
    a child that already exited it does nothing; on a live child it sends
    a termination, waits, and kills when the wait times out. *)
Theorem cleanup_keeps_handle (w : World) (poll : option Z) (s : State) :
  exists s',
    _cleanup w poll s = (Ok tt, s') /\
    ui_process s' = ui_process s /\
    process_output s' = process_output s /\
    trace s' =
      (trace s ++
       match ui_process s, poll with
       | Some pid, None =>
           Terminate pid :: Wait pid :: (if wait_exits w then [] else [Kill pid])
       | _, _ => []
       end)%list.
Proof.
  destruct s as [path proc up np out env tr]. unfold _cleanup.
  destruct proc as [pid|], poll as [code|]; try destruct (wait_exits w);
    run_monad; eexists; (split; [reflexivity|]); cbn;
    rewrite <- ?app_assoc, ?app_nil_r; auto.
Qed.

(** ** Step 3 of [start()]: the UI port *)

(** X9: the check of the UI port. When the port is free, nothing is asked
    and nothing is killed. When it is taken on Windows, [start()] gives up
    without asking. When it is taken elsewhere and the operator does not
    answer "y", nothing is killed and the step passes all the same. When
    the operator answers "y", the owner is killed; the step passes only if
    the kill returned in time and the port is free afterwards, and every
    failure of that branch is reported as "in use and could not be
    freed". *)
Theorem ui_port_check (w : World) (s : State) :
  let port := str_N (ui_port s) in
  let asked := Input ("   Try to kill existing process on port " ++ port ++ "? (y/n): ") in
  let taken := Print ("⚠️  Port " ++ port ++ " is already in use") in
  exists r evs,
    fst (check_ui_port w s) = r /\
    trace (snd (check_ui_port w s)) = (trace s ++ Connect (ui_port s) :: evs)%list /\
    (ui_port_free w = true -> r = Ok tt /\ evs = []) /\
    (ui_port_free w = false -> win32 w = true ->
       r = Raise (RuntimeError ("❌ Port " ++ port ++
             " is already in use. Please stop the process using it manually.")) /\
       evs = [taken]) /\
    (ui_port_free w = false -> win32 w = false ->
     forall reply, stdin_reply w = Line reply ->
       (String.eqb (lower reply) "y" = false -> r = Ok tt /\ evs = [taken; asked]) /\
       (String.eqb (lower reply) "y" = true ->
          runs_of evs = [kill_owner_command port] /\
          (kill_owner_in_time w = true -> ui_port_free_after_kill w = true -> r = Ok tt) /\
          (kill_owner_in_time w = false \/ ui_port_free_after_kill w = false ->
             r = Raise (RuntimeError
                   ("❌ Port " ++ port ++ " is in use and could not be freed"))))).
Proof.
  destruct s as [path proc up np out env tr]. cbn [ui_port].
  unfold check_ui_port, _check_port_available.
  destruct (ui_port_free w) eqn:F; [|destruct (win32 w) eqn:W];
    [| |destruct (stdin_reply w) as [reply| |] eqn:R;
        [destruct (String.eqb (lower reply) "y") eqn:Y;
           [destruct (kill_owner_in_time w) eqn:K;
              [destruct (ui_port_free_after_kill w) eqn:A|]|]| |]];
    run_monad; rewrite ?F, ?W, ?R, ?Y, ?K, ?A; run_monad;
    rewrite ?F, ?W, ?R, ?Y, ?K, ?A; run_monad;
    cbn [fst snd trace]; rewrite <- ?app_assoc; cbn [app];
    eexists _, _; (split; [reflexivity|]); (split; [reflexivity|]);
    repeat match goal with
           | |- _ /\ _ => split
           | |- _ -> _ => intro
           | |- forall _, _ => intro
           | H : _ \/ _ |- _ => destruct H
           end;
    first [congruence | reflexivity].
Qed.

Lemma ui_port_check_witness :
  let w := Scenario.host Scenario.all_tools Scenario.installs [] [] Scenario.refused true in
  fst (check_ui_port w (Scenario.fresh None)) = Ok tt.
Proof.
  intros w.
  destruct (ui_port_check w (Scenario.fresh None)) as (r & evs & H1 & _ & H3 & _).
  rewrite H1. exact (proj1 (H3 eq_refl)).
Defined.

(** ** Step 4 of [start()]: the repository *)

Section Repository.

Variable w : World.

Lemma preflight_setup_only : preserves (emitted (setup_only w)) (preflight w).
Proof.
  unfold preflight, check_prerequisites, require_command, _check_command_exists,
    check_nat_server, check_ui_port, ensure_repository, _check_port_available.
  pres; try (right; left; eexists; reflexivity);
    try (right; right; eexists; reflexivity).
Qed.

Lemma ensure_repository_Ok (s s' : State) :
  ensure_repository w s = (Ok tt, s') ->
  ui_path_exists w = true \/ git_clone w = Completed.
Proof.
  unfold ensure_repository. intros H.
  apply bind_Ok_inv in H as (s0 & ? & _ & H).
  destruct (ui_path_exists w); [now left|]. cbn [negb] in H.
  apply bind_Ok_inv in H as (? & ? & _ & H).
  apply bind_Ok_inv in H as (? & ? & _ & H).
  destruct (git_clone w); [now right | discriminate | discriminate].
Qed.

Lemma preflight_Ok (s s' : State) :
  preflight w s = (Ok tt, s') ->
  ui_path_exists w = true \/ git_clone w = Completed.
Proof.
  unfold preflight. intros H.
  do 3 (apply bind_Ok_inv in H as (? & ? & _ & H)).
  eapply ensure_repository_Ok, H.
Qed.

End Repository.



(** X11: when the UI directory is missing and the clone does not
    complete, [start()] returns [False] having run nothing but version
    queries, the optional kill of the port owner and the clone: no
    install, no write of [.env], no UI process. (A prompt of step 3
    answered with Ctrl+C ends [start()] before the clone, by a
    [KeyboardInterrupt] that reaches the caller.) *)
Theorem clone_failure_stops_start (w : World) (s : State) :
  ui_path_exists w = false ->
  git_clone w <> Completed ->
  stdin_reply w <> Interrupted ->
  exists s', start w s = (Ok false, s') /\
             emitted (setup_only w) s s' /\
             ui_process s' = None.
Proof.
  intros HX HG HI.
  destruct (preflight w s) as [[[]|e] s1] eqn:E.
  { destruct (preflight_Ok w s s1 E); congruence. }
  assert (Hbody : start_body w s = (Raise e, s1)).
  { unfold start_body, prepare. now apply bind_raise, bind_raise. }
  assert (Hex : is_Exception e = true).
  { destruct (is_Exception e) eqn:Ex; [reflexivity|].
    destruct (HI (preflight_raises w _ _ _ E Ex)). }
  destruct (on_failure_stops w e s1 Hex) as (s2 & s' & _ & _ & Hf & Hp).
  exists s'. split; [|split; [|exact Hp]].
  - unfold start, try_except. now rewrite Hbody, Hex.
  - eapply emitted_trans.
    + eapply preflight_setup_only, E.
    + eapply on_failure_emitted, Hf; simpl; auto.
Qed.

Lemma clone_failure_stops_start_witness :
  let w := mkWorld false (fun _ => None) Scenario.all_tools false true (Line "n") true true
             false TimeoutExpired "" Scenario.installs None None (inr 1) [] None [] [] None
             [] [] Scenario.refused None true in
  exists s', start w (Scenario.fresh None) = (Ok false, s') /\ ui_process s' = None.
Proof.
  intros w.
  destruct (clone_failure_stops_start w (Scenario.fresh None) eq_refl)
    as (s' & H1 & _ & H2).
  - discriminate.
  - discriminate.
  - exists s'. split; assumption.
Defined.

(** ** More on the install engine *)

(** X12: every install run uses at most one of the two substitutions: the
    engine runs [npm ci], [npm install] or [npm ci --legacy-peer-deps],
    and never an install with both substitutions at once. *)
Theorem install_never_combines_flags (w : World) (s s' : State) (r : Res InstallEnd) :
  install_dependencies w s = (r, s') ->
  Forall (fun cmd => In cmd [install_command w false false;
                             install_command w true false;
                             install_command w false true])
         (runs_of (new_events s s')).
Proof.
  destruct s as [path proc up np out env tr]. intros H.
  install_cases H; injection H as <- <-; leaf_events;
    repeat first [apply Forall_nil | apply Forall_cons]; cbn [In]; auto 6.
Qed.

Lemma install_never_combines_flags_witness :
  let w := Scenario.host Scenario.all_tools
             (Scenario.script [Scenario.lockfile_error; Scenario.peer_error])
             [] [] Scenario.refused true in
  exists r s', install_dependencies w (Scenario.fresh None) = (r, s') /\
               Forall (fun cmd => In cmd [install_command w false false;
                                          install_command w true false;
                                          install_command w false true])
                      (runs_of (new_events (Scenario.fresh None) s')).
Proof.
  intros w.
  let p := eval vm_compute in (install_dependencies w (Scenario.fresh None)) in
  assert (H : install_dependencies w (Scenario.fresh None) = p)
    by (vm_compute; reflexivity).
  eexists _, _. split; [exact H|].
  exact (install_never_combines_flags w _ _ _ H).
Defined.

(** X13: when the first [npm ci] completes, it is the only install run:
    no flag is set and nothing is retried. *)
Theorem install_first_attempt (w : World) (s : State) :
  npm_run w 0 (install_command w false false) = Completed ->
  exists s', install_dependencies w s = (Ok (mkInstallEnd false false true), s') /\
             new_events s s' =
               [Print "📦 Installing UI dependencies...";
                Run (install_command w false false);
                Print "✅ Dependencies installed"].
Proof.
  intros H0. destruct s as [path proc up np out env tr].
  unfold install_dependencies. cbn [seq max_retries install_loop].
  rewrite H0. run_monad. eexists. split; [reflexivity|].
  unfold new_events. cbn [trace]. rewrite <- !app_assoc.
  now rewrite skipn_app, skipn_all, Nat.sub_diag.
Qed.

Lemma install_first_attempt_witness :
  let w := Scenario.host Scenario.all_tools Scenario.installs [] [] Scenario.refused true in
  exists s', install_dependencies w (Scenario.fresh None) =
               (Ok (mkInstallEnd false false true), s').
Proof.
  intros w. destruct (install_first_attempt w (Scenario.fresh None) eq_refl) as (s' & H & _).
  now exists s'.
Defined.

(** X14: a reclassified failure on the last attempt ends the loop: when
    the first attempt was a timeout and the second fails with a lockfile
    marker (or else a peer-dependency marker), the engine prints the
    notice, runs nothing more and returns to [start()] without raising,
    no install run having completed. *)
Theorem install_last_attempt_reclassified (w : World) (s : State)
    (stderr stdout : option string) (returncode : Z) :
  npm_run w 0 (install_command w false false) = TimeoutExpired ->
  npm_run w 1 (install_command w false false) =
    CalledProcessError stderr stdout returncode ->
  lockfile_mismatch (or_empty stderr ++ or_empty stdout) = true \/
  peer_conflict (or_empty stderr ++ or_empty stdout) = true ->
  let npm := lockfile_mismatch (or_empty stderr ++ or_empty stdout) in
  exists s',
    install_dependencies w s = (Ok (mkInstallEnd npm (negb npm) false), s') /\
    new_events s s' =
      [Print "📦 Installing UI dependencies...";
       Run (install_command w false false);
       Print (retrying "timed out" 0);
       Run (install_command w false false);
       Print (if npm then lockfile_notice else peer_notice)].
Proof.
  intros H0 H1 Hm npm. subst npm. destruct s as [path proc up np out env tr].
  unfold install_dependencies. cbn [seq max_retries install_loop].
  rewrite H0. cbv [max_retries Nat.ltb Nat.leb Nat.sub]. run_monad. rewrite H1.
  cbn [negb andb].
  destruct (lockfile_mismatch (or_empty stderr ++ or_empty stdout)) eqn:L;
    [|destruct Hm as [Hm|Hm]; [discriminate | rewrite Hm]];
    run_monad; (eexists; split; [reflexivity|]);
    unfold new_events; cbn [trace]; rewrite <- !app_assoc;
    now rewrite skipn_app, skipn_all, Nat.sub_diag.
Qed.

Lemma install_last_attempt_reclassified_witness :
  let w := Scenario.host Scenario.all_tools
             (Scenario.script [TimeoutExpired; Scenario.lockfile_error])
             [] [] Scenario.refused true in
  exists s', install_dependencies w (Scenario.fresh None) =
               (Ok (mkInstallEnd true false false), s').
Proof.
  intros w.
  destruct (install_last_attempt_reclassified w (Scenario.fresh None) _ _ _
              eq_refl eq_refl (or_introl eq_refl)) as (s' & H & _).
  now exists s'.
Defined.

(** X15: in the test for a peer-dependency conflict the third marker is
    subsumed by the second: the test is the test for "eresolve" or "peer
    dependency". The test for a lockfile mismatch and this one do not
    depend on the case of the output. *)
Theorem failure_markers (error_output : string) :
  peer_conflict error_output =
    (contains "eresolve" (lower error_output) ||
     contains "peer dependency" (lower error_output)) /\
  peer_conflict (lower error_output) = peer_conflict error_output /\
  lockfile_mismatch (lower error_output) = lockfile_mismatch error_output.
Proof.
  assert (Hl : forall x, lower (lower x) = lower x).
  { induction x as [|c t IH]; [reflexivity|]. cbn [lower]. rewrite IH. f_equal.
    unfold lower_char.
    destruct ((65 <=? nat_of_ascii c)%nat && (nat_of_ascii c <=? 90)%nat) eqn:E.
    - apply andb_true_iff in E as [E1 E2].
      apply Nat.leb_le in E1. apply Nat.leb_le in E2.
      rewrite nat_ascii_embedding by lia.
      destruct ((65 <=? nat_of_ascii c + 32)%nat &&
                (nat_of_ascii c + 32 <=? 90)%nat) eqn:E'; [|reflexivity].
      apply andb_true_iff in E' as [_ E']. apply Nat.leb_le in E'. lia.
    - now rewrite E. }
  split; [|split].
  - unfold peer_conflict.
    destruct (contains "conflicting peer dependency" (lower error_output)) eqn:E.
    + apply (contains_inner "conflicting " "peer dependency" "") in E.
      rewrite E. now rewrite !orb_true_r.
    + now rewrite orb_false_r.
  - unfold peer_conflict. now rewrite Hl.
  - unfold lockfile_mismatch. now rewrite Hl.
Qed.

(** ** Diagnostics of a crash, the compilation marker, the HTTP probes *)

Section Diagnostics.

Lemma contains_empty (x : string) : contains "" x = true.
Proof. destruct x; reflexivity. Qed.

(** A text found in a line is found in ['\n'.join] of the lines. *)
Lemma contains_in_join (m l : string) (ls : list string) :
  In l ls -> contains m l = true -> contains m (join nl ls) = true.
Proof.
  intros Hin Hm. induction ls as [|x r IH]; [destruct Hin|].
  destruct r as [|y r].
  - destruct Hin as [->|[]]. exact Hm.
  - change (join nl (x :: y :: r)) with (x ++ nl ++ join nl (y :: r)).
    destruct Hin as [->|Hin].
    + now apply contains_app_l.
    + apply contains_app_r, contains_app_r. now apply IH.
Qed.

Lemma crash_report_embeds (header : string) (output : list string) :
  contains (join nl (last_n 50 output)) (crash_report header output) = true /\
  (forall line, In line (last_n 15 (filter (any_in error_keywords) output)) ->
                contains line (crash_report header output) = true).
Proof.
  unfold crash_report. split.
  - destruct (truthy (join nl (last_n 50 output))) eqn:T.
    + assert (H : contains (join nl (last_n 50 output))
                    ((header ++ nl) ++ nl ++ "Recent output (last 50 lines):" ++ nl ++
                     join nl (last_n 50 output) ++ nl) = true)
        by (do 4 apply contains_app_r; apply contains_here).
      destruct (filter (any_in error_keywords) output); [exact H|].
      now apply contains_app_l.
    + destruct (join nl (last_n 50 output)); [|discriminate].
      apply contains_empty.
  - intros line Hin.
    destruct (filter (any_in error_keywords) output) as [|e r] eqn:F.
    + destruct Hin.
    + do 4 apply contains_app_r. apply contains_app_l.
      apply (contains_in_join line line); [exact Hin | apply contains_self].
Qed.

Variable w : World.

Lemma settle_crash (s1 : State) (code : Z) :
  poll_settle w = Some code ->
  exists s2,
    settle w s1 =
      (Raise (RuntimeError
         (crash_report "❌ UI server process exited before gateway could start:"
                       (process_output s2))), s2) /\
    process_output s2 =
      run_appends (map (fun a => entry (fst a) (snd a)) (settle_output w))
                  (process_output s1) /\
    advances s1 s2.
Proof.
  intros Hpoll. unfold settle. step_ok.
  match goal with |- context [bind (absorb ?l) _ ?st] =>
    destruct (absorb_result l st) as (sb & Ea & Hp);
    pose proof (advances_absorb l _ _ _ Ea) as Ha end.
  rewrite (bind_ok _ _ _ _ _ Ea), Hpoll. step_ok.
  exists sb. split; [reflexivity|]. split; [exact Hp|].
  eapply advances_trans; [|exact Ha]. advances_now.
Qed.

Lemma show_recent_output_no_get :
  preserves (emitted (fun e => http_gets [e] = 0)) show_recent_output.
Proof. unfold show_recent_output. pres. Qed.

Lemma http_gets_app (a b : list Event) :
  http_gets (a ++ b) = http_gets a + http_gets b.
Proof.
  induction a as [|e a IH]; [reflexivity|]. destruct e; cbn; rewrite IH; lia.
Qed.

Lemma http_gets_none (evs : list Event) :
  Forall (fun e => http_gets [e] = 0) evs -> http_gets evs = 0.
Proof.
  induction 1 as [|e evs He _ IH]; [reflexivity|].
  change (e :: evs) with ([e] ++ evs)%list. rewrite http_gets_app. lia.
Qed.

Lemma http_loop_gets (attempts : list nat) (s s' : State) (r : Res unit) :
  http_loop w attempts s = (r, s') ->
  exists evs, trace s' = (trace s ++ evs)%list /\ http_gets evs <= length attempts.
Proof.
  revert s. induction attempts as [|a rest IH]; intros s H.
  - injection H as <- <-. exists []. split; [now rewrite app_nil_r | cbn; lia].
  - cbn [http_loop] in H. erewrite bind_ok in H by reflexivity. flat_state.
    cbn [ui_path ui_process ui_port nat_port process_output env_file trace] in H.
    destruct (http_replies w a) as [code|text].
    + destruct ((code =? 200)%nat || (code =? 404)%nat).
      * injection H as <- <-. eexists. split; [trace_now | cbn; lia].
      * apply IH in H as (evs & Ht & Hn). exists (HttpGet "http://localhost:3099" :: evs).
        split; [rewrite Ht; cbn [trace]; now rewrite <- app_assoc | cbn; lia].
    + destruct (a <? 4)%nat.
      * erewrite bind_ok in H by reflexivity.
        cbn [ui_path ui_process ui_port nat_port process_output env_file trace] in H.
        apply IH in H as (evs & Ht & Hn).
        exists (HttpGet "http://localhost:3099" :: Sleep 2 :: evs).
        split; [rewrite Ht; cbn [trace]; now rewrite <- !app_assoc | cbn; lia].
      * erewrite bind_ok in H by reflexivity.
        cbn [ui_path ui_process ui_port nat_port process_output env_file trace] in H.
        erewrite bind_ok in H by reflexivity.
        cbn [ui_path ui_process ui_port nat_port process_output env_file trace] in H.
        match type of H with bind show_recent_output _ ?st = _ =>
          destruct (returns_show_recent_output st) as ([] & sr & Er);
          destruct (show_recent_output_no_get _ _ _ Er) as (e1 & Ht1 & F1) end.
        rewrite (bind_ok _ _ _ _ _ Er) in H.
        apply IH in H as (evs & Ht & Hn).
        eexists. split.
        { rewrite Ht, Ht1. cbn [trace]. rewrite <- !app_assoc. reflexivity. }
        cbn [app http_gets length]. rewrite http_gets_app, (http_gets_none _ F1). lia.
Qed.

(** Every round of the HTTP check starts with a request. *)
Lemma http_loop_starts (a : nat) (rest : list nat) (s s' : State) (r : Res unit) :
  http_loop w (a :: rest) s = (r, s') ->
  exists evs, trace s' = (trace s ++ HttpGet "http://localhost:3099" :: evs)%list.
Proof.
  cbn [http_loop]. intros H. erewrite bind_ok in H by reflexivity.
  pose proof advances_show_recent_output as Hshow.
  pose proof (advances_http_loop w rest) as Hloop.
  match type of H with
  | ?k ?st = _ => assert (Hk : preserves advances k) by pres;
                  destruct (Hk st _ _ H) as (_ & _ & evs & Ht)
  end.
  exists evs. rewrite Ht. cbn [trace]. now rewrite <- app_assoc.
Qed.

End Diagnostics.

(** X16: when the child is found dead after the three seconds of settle
    time, [start()] returns [False] with no handle tracked, and the
    failure it prints embeds the last 50 buffered lines together with the
    last 15 buffered lines that carry an error keyword. *)
Theorem early_exit_reports_output (w : World) (s s1 : State) (code : Z) :
  prepare w s = (Ok tt, s1) ->
  poll_settle w = Some code ->
  let output := run_appends (map (fun a => entry (fst a) (snd a)) (settle_output w))
                            (process_output s1) in
  let msg := crash_report "❌ UI server process exited before gateway could start:"
                          output in
  exists s',
    start w s = (Ok false, s') /\ ui_process s' = None /\
    mentions (Print msg) s1 s' /\
    contains (join nl (last_n 50 output)) msg = true /\
    (forall line, In line (last_n 15 (filter (any_in error_keywords) output)) ->
                  contains line msg = true).
Proof.
  intros Hprep Hpoll output msg.
  destruct (settle_crash w s1 code Hpoll) as (s2 & E & Hp & Ha).
  fold output in Hp. rewrite Hp in E. fold msg in E.
  assert (Hbody : start_body w s = (Raise (RuntimeError msg), s2)).
  { unfold start_body. rewrite (bind_ok _ _ _ _ _ Hprep).
    unfold await_ready. now apply bind_raise. }
  destruct (on_failure_stops w (RuntimeError msg) s2 eq_refl) as (s4 & s' & Hprint & Hstop & Hf & Hn).
  destruct (stop_emitted w (fun _ => True)
              (fun _ => I) (fun _ => I) (fun _ => I) (fun _ => I) _ _ _ Hstop)
    as (evs & Ht & _).
  exists s'. split; [|split; [exact Hn|split]].
  - unfold start, try_except. now rewrite Hbody.
  - destruct Ha as (_ & _ & e1 & Ht1). injection Hprint as <-.
    exists (e1 ++ Print msg :: evs)%list. split.
    + rewrite Ht. cbn [trace failure_text]. rewrite Ht1, <- !app_assoc. reflexivity.
    + apply in_app_iff. right. now left.
  - apply crash_report_embeds.
Qed.

Lemma early_exit_reports_output_witness :
  let w := mkWorld false (fun _ => None) Scenario.all_tools false true (Line "n") true true
             true Completed "" Scenario.installs None None (inr 9)
             [(STDERR, "Error: listen EADDRINUSE" ++ nl)] (Some 1%Z) [] [] None
             [] [] Scenario.refused None true in
  exists s', start w (Scenario.fresh None) = (Ok false, s') /\
             In (Print ("❌ UI server process exited before gateway could start:" ++ nl ++
                        nl ++ "Recent output (last 50 lines):" ++ nl ++
                        "[STDERR] Error: listen EADDRINUSE" ++ nl ++ nl ++
                        "🔍 Error messages found:" ++ nl ++
                        "[STDERR] Error: listen EADDRINUSE" ++ nl))
                (trace s').
Proof.
  intros w.
  let s1 := eval vm_compute in (snd (prepare w (Scenario.fresh None))) in
  assert (Hprep : prepare w (Scenario.fresh None) = (Ok tt, s1))
    by (vm_compute; reflexivity).
  destruct (early_exit_reports_output w _ _ 1%Z Hprep eq_refl)
    as (s' & H1 & _ & (evs & Ht & Hin) & _).
  exists s'. split; [exact H1|]. rewrite Ht. apply in_app_iff. right. exact Hin.
Defined.

(** X17: the compilation wait decides line by line over the last ten
    buffered lines: it sees a finished compilation exactly when one of
    them carries "✓ Compiled" or "Compiled in" and none of them carries
    "○ Compiling". Older lines play no part. *)
Theorem compilation_done_window (buf : list string) :
  compilation_done (join nl (last_n 10 buf)) = true <->
  (exists line, In line (last_n 10 buf) /\
                (contains "✓ Compiled" line = true \/ contains "Compiled in" line = true)) /\
  (forall line, In line (last_n 10 buf) -> contains "○ Compiling" line = false).
Proof.
  unfold compilation_done. rewrite andb_true_iff, orb_true_iff, negb_true_iff.
  split.
  - intros [Hd Hc]. split.
    + destruct Hd as [H|H]; apply contains_join in H as (l & Hin & Hl);
        try reflexivity; try discriminate; exists l; auto.
    + intros line Hin. destruct (contains "○ Compiling" line) eqn:E; [|reflexivity].
      rewrite (contains_in_join _ _ _ Hin E) in Hc. discriminate.
  - intros [(line & Hin & Hd) Hc]. split.
    + destruct Hd as [H|H]; [left | right]; now apply (contains_in_join _ line).
    + destruct (contains "○ Compiling" (join nl (last_n 10 buf))) eqn:E; [|reflexivity].
      apply contains_join in E as (l & Hin' & Hl); [|reflexivity|discriminate].
      rewrite (Hc l Hin') in Hl. discriminate.
Qed.

(** X18: the HTTP check never raises and sends at most five requests. A
    first request answered with status 200 ends it at once, with the
    success line and no sleep or warning. A first request on which
    [urlopen] raises (a refused connection, or a reply with an error
    status such as 404) is followed by a sleep of two seconds and a second
    request. *)
Theorem http_check_bounded (w : World) (s : State) :
  exists s',
    http_loop w (seq 0 5) s = (Ok tt, s') /\
    http_gets (new_events s s') <= 5 /\
    (http_replies w 0 = HttpStatus 200 ->
       new_events s s' = [HttpGet "http://localhost:3099";
                          Print "✅ Next.js is responding on port 3099"]) /\
    (forall text, http_replies w 0 = HttpError text ->
       exists rest,
         new_events s s' = HttpGet "http://localhost:3099" :: Sleep 2 ::
                           HttpGet "http://localhost:3099" :: rest).
Proof.
  destruct (returns_http_loop w (seq 0 5) s) as ([] & s' & E).
  destruct (http_loop_gets w _ _ _ _ E) as (evs & Ht & Hn).
  exists s'. split; [exact E|]. split; [|split].
  - rewrite (new_events_emitted _ _ _ Ht). exact Hn.
  - intros Hr. cbn [seq http_loop] in E. rewrite Hr in E.
    cbn [Nat.eqb orb] in E. erewrite bind_ok in E by reflexivity.
    injection E as <-. unfold new_events. cbn [trace]. rewrite <- app_assoc.
    now rewrite skipn_app, skipn_all, Nat.sub_diag.
  - intros text Hr. change (seq 0 5) with (0 :: seq 1 4) in E.
    cbn [http_loop] in E. rewrite Hr in E. cbv [Nat.ltb Nat.leb] in E.
    erewrite bind_ok in E by reflexivity. erewrite bind_ok in E by reflexivity.
    change (seq 1 4) with (1 :: seq 2 3) in E.
    apply http_loop_starts in E as (rest & Hrest). exists rest.
    apply new_events_emitted. rewrite Hrest. cbn [trace].
    now rewrite <- !app_assoc.
Qed.

Lemma http_check_bounded_witness :
  let w := Scenario.host Scenario.all_tools Scenario.installs [] []
                         (fun _ => HttpStatus 200) true in
  exists s', http_loop w (seq 0 5) (Scenario.fresh None) = (Ok tt, s') /\
             trace s' = [HttpGet "http://localhost:3099";
                         Print "✅ Next.js is responding on port 3099"].
Proof.
  intros w.
  destruct (http_check_bounded w (Scenario.fresh None)) as (s' & H1 & _ & H3 & _).
  exists s'. split; [exact H1|].
  exact (H3 eq_refl).
Defined.

(** ** The buffer over a whole [start()] *)

Section BufferInvariant.

Variable w : World.

Lemma bounded_output_refl (s : State) : bounded_output s s.
Proof. unfold bounded_output. auto. Qed.

Lemma bounded_output_trans (a b c : State) :
  bounded_output a b -> bounded_output b c -> bounded_output a c.
Proof. unfold bounded_output. auto. Qed.

Lemma bounded_emit (e : Event) : preserves bounded_output (emit e).
Proof. intros s r s' [= <- <-]. unfold bounded_output. auto. Qed.

Lemma bounded_set_ui_process (p : option Pid) :
  preserves bounded_output (set_ui_process p).
Proof. intros s r s' [= <- <-]. unfold bounded_output. auto. Qed.

Lemma bounded_set_env_file (c : option string) :
  preserves bounded_output (set_env_file c).
Proof. intros s r s' [= <- <-]. unfold bounded_output. auto. Qed.

Lemma bounded_absorb (arrivals : list (stream * string)) :
  preserves bounded_output (absorb arrivals).
Proof.
  intros s r s' E. destruct (absorb_result arrivals s) as (s'' & E' & Hp).
  rewrite E' in E. injection E as <- <-. unfold bounded_output.
  rewrite Hp. apply run_appends_bound.
Qed.

#[local] Hint Resolve bounded_output_refl bounded_output_trans bounded_emit
  bounded_set_ui_process bounded_set_env_file bounded_absorb : pres.

Lemma bounded_wait_loop (port : N) (probes : list bool) :
  preserves bounded_output (wait_loop port probes).
Proof.
  induction probes as [|free r IH]; cbn [wait_loop]; unfold _check_port_available; pres.
Qed.

Lemma bounded_install_loop (attempts : list nat) (npm legacy : bool) :
  preserves bounded_output (install_loop w attempts npm legacy).
Proof.
  revert npm legacy. induction attempts as [|a r IH]; intros npm legacy;
    cbn [install_loop]; pres.
Qed.

Lemma bounded_compile_loop (rounds : list (list (stream * string) * option Z)) :
  preserves bounded_output (compile_loop rounds).
Proof.
  induction rounds as [|[arrivals poll] r IH]; cbn [compile_loop]; pres.
Qed.

Lemma bounded_http_loop (attempts : list nat) :
  preserves bounded_output (http_loop w attempts).
Proof.
  induction attempts as [|a r IH]; cbn [http_loop]; unfold show_recent_output; pres.
Qed.

Lemma bounded_stop : preserves bounded_output (stop w).
Proof. unfold stop. pres. Qed.

Lemma bounded_prepare : preserves bounded_output (prepare w).
Proof.
  pose proof bounded_install_loop.
  unfold prepare, preflight, check_prerequisites, require_command,
    _check_command_exists, check_nat_server, check_ui_port, ensure_repository,
    _check_port_available, install_dependencies, configure_environment, start_server.
  pres.
Qed.

Lemma bounded_await_ready : preserves bounded_output (await_ready w).
Proof.
  pose proof bounded_wait_loop. pose proof bounded_compile_loop.
  pose proof bounded_http_loop.
  unfold await_ready, settle, wait_gateway, wait_nextjs, final_health_check,
    _wait_for_port.
  pres.
Qed.

End BufferInvariant.

(** X19: [start()] keeps the bound of the output buffer: if it held at
    most 100 lines when [start()] was called (it is empty at construction
    and is never reset), it holds at most 100 lines when [start()]
    returns, however the call ends and whatever the capture threads
    appended meanwhile. *)
Theorem start_keeps_buffer_bounded (w : World) (s s' : State) (r : Res bool) :
  start w s = (r, s') ->
  length (process_output s) <= 100 ->
  length (process_output s') <= 100.
Proof.
  revert s r s'. change (preserves bounded_output (start w)).
  apply (preserves_try_except bounded_output bounded_output_trans).
  - apply (preserves_bind bounded_output bounded_output_trans).
    + apply bounded_prepare.
    + intros _. apply bounded_await_ready.
  - intros e. pose proof (bounded_stop w).
    unfold on_failure.
    destruct e; [| |apply (preserves_raise bounded_output bounded_output_refl)];
      (apply (preserves_bind bounded_output bounded_output_trans);
       [apply bounded_emit|intros _]);
      (apply (preserves_bind bounded_output bounded_output_trans);
       [assumption|intros _]);
      apply (preserves_ret bounded_output bounded_output_refl).
Qed.

Lemma start_keeps_buffer_bounded_witness :
  let w := Scenario.host Scenario.all_tools Scenario.installs [false] [true]
                         Scenario.refused true in
  length (process_output (snd (start w (Scenario.fresh None)))) <= 100.
Proof.
  intros w.
  apply (start_keeps_buffer_bounded w (Scenario.fresh None) _
           (fst (start w (Scenario.fresh None)))).
  - now destruct (start w (Scenario.fresh None)).
  - cbn. lia.
Defined.

(** X20: a capture thread stops at the end of its stream: of what its
    pipe yields, only the lines before the first empty read become
    entries of the buffer, each tagged with its stream and without its
    trailing blanks. *)
Theorem capture_stops_at_eof (st : stream) (before after : list string) :
  (forall line, In line before -> line <> "") ->
  entries st (before ++ "" :: after) = map (fun line => tag st ++ rstrip line) before.
Proof.
  intros H. unfold entries. f_equal.
  induction before as [|l r IH]; [reflexivity|].
  cbn [app until_eof]. destruct l as [|c l]; [exfalso; apply (H ""); [now left | reflexivity]|].
  cbn [truthy]. f_equal. apply IH. intros line Hin. apply H. now right.
Qed.

Lemma capture_stops_at_eof_witness :
  entries STDOUT (["ready " ++ nl] ++ "" :: ["late"]) = ["[STDOUT] ready"].
Proof.
  rewrite (capture_stops_at_eof STDOUT ["ready " ++ nl] ["late"]); [reflexivity|].
  intros line [<-|[]]. discriminate.
Defined.

(** ** The [.env] file read back *)

Section EnvRoundTrip.

Lemma rstrip_cons (c : ascii) (t : string) :
  rstrip (String c t) =
  match rstrip t with
  | EmptyString => if is_space c then EmptyString else String c EmptyString
  | r => String c r
  end.
Proof. reflexivity. Qed.

Lemma rstrip_idem (s : string) : rstrip (rstrip s) = rstrip s.
Proof.
  induction s as [|c t IH]; [reflexivity|]. rewrite (rstrip_cons c t).
  destruct (rstrip t) as [|a r] eqn:E.
  - destruct (is_space c) eqn:S; [reflexivity|]. rewrite rstrip_cons. cbn [rstrip].
    now rewrite S.
  - rewrite rstrip_cons, IH. reflexivity.
Qed.

Lemma lstrip_idem (s : string) : lstrip (lstrip s) = lstrip s.
Proof.
  induction s as [|c t IH]; [reflexivity|]. cbn [lstrip].
  destruct (is_space c) eqn:S; [exact IH|]. cbn [lstrip]. now rewrite S.
Qed.

Lemma rstrip_lstrip (t : string) : rstrip t = t -> rstrip (lstrip t) = lstrip t.
Proof.
  induction t as [|c t IH]; intros H; [reflexivity|]. cbn [lstrip].
  destruct (is_space c) eqn:S; [|exact H].
  apply IH. cbn [rstrip] in H. destruct (rstrip t) as [|a r] eqn:E.
  - rewrite S in H. discriminate.
  - now injection H.
Qed.

Lemma tidy_strip (s : string) : tidy (strip s).
Proof.
  unfold tidy, strip. split; [apply lstrip_idem|].
  apply rstrip_lstrip, rstrip_idem.
Qed.

Lemma tidy_strip_id (s : string) : tidy s -> strip s = s.
Proof. intros [H1 H2]. unfold strip. now rewrite H2. Qed.

Lemma length_lstrip (s : string) : String.length (lstrip s) <= String.length s.
Proof.
  induction s as [|c t IH]; [reflexivity|]. cbn [lstrip].
  destruct (is_space c); cbn [String.length]; lia.
Qed.

Lemma lstrip_fixed_head (c : ascii) (t : string) :
  lstrip (String c t) = String c t -> is_space c = false.
Proof.
  cbn [lstrip]. destruct (is_space c); [|reflexivity]. intros H.
  pose proof (length_lstrip t) as L. rewrite H in L. cbn [String.length] in L. lia.
Qed.

Lemma rstrip_app_drop (a b : string) : rstrip b = "" -> rstrip (a ++ b) = rstrip a.
Proof.
  intros H. induction a as [|c a IH]; [exact H|]. cbn [append rstrip]. now rewrite IH.
Qed.

Lemma rstrip_app_keep (a b : string) :
  rstrip b <> "" -> rstrip (a ++ b) = a ++ rstrip b.
Proof.
  intros H. induction a as [|c a IH]; [reflexivity|]. cbn [append rstrip].
  rewrite IH. destruct (a ++ rstrip b) eqn:E; [|reflexivity].
  destruct a; [cbn in E; contradiction | discriminate].
Qed.

Lemma lf_free_cons (c : ascii) (t : string) :
  lf_free (String c t) = negb (Ascii.eqb c LF) && lf_free t.
Proof. reflexivity. Qed.

Lemma lf_free_app (a b : string) : lf_free (a ++ b) = lf_free a && lf_free b.
Proof.
  induction a as [|c a IH]; [reflexivity|]. cbn [append lf_free].
  now rewrite IH, andb_assoc.
Qed.

Lemma lf_free_lstrip (s : string) : lf_free s = true -> lf_free (lstrip s) = true.
Proof.
  induction s as [|c t IH]; [auto|]. intros H. cbn [lstrip].
  destruct (is_space c); [|exact H]. apply IH.
  cbn [lf_free] in H. apply andb_true_iff in H. tauto.
Qed.

Lemma lf_free_rstrip (s : string) : lf_free s = true -> lf_free (rstrip s) = true.
Proof.
  induction s as [|c t IH]; [auto|]. intros H. cbn [lf_free] in H.
  apply andb_true_iff in H as [Hc Ht]. cbn [rstrip].
  destruct (rstrip t) as [|a r] eqn:E.
  - destruct (is_space c); [reflexivity|]. cbn [lf_free]. now rewrite Hc.
  - cbn [lf_free]. rewrite Hc. exact (IH Ht).
Qed.

Lemma lf_free_strip (s : string) : lf_free s = true -> lf_free (strip s) = true.
Proof. intros H. now apply lf_free_lstrip, lf_free_rstrip. Qed.

(** Every line of a file is free of newlines once right-stripped. *)
Lemma file_lines_body (content raw : string) :
  In raw (file_lines content) ->
  exists body, lf_free body = true /\ (raw = body ++ nl \/ raw = body).
Proof.
  revert raw. induction content as [|a t IH]; intros raw Hin; [destruct Hin|].
  cbn [file_lines] in Hin. destruct (Ascii.eqb a LF) eqn:E.
  - destruct Hin as [<-|Hin]; [|now apply IH].
    apply Ascii.eqb_eq in E. subst a. exists "". split; [reflexivity | now left].
  - assert (Ha : lf_free (String a "") = true) by (rewrite lf_free_cons; now rewrite E).
    destruct (file_lines t) as [|l ls] eqn:F.
    + destruct Hin as [<-|[]]. exists (String a ""). auto.
    + destruct Hin as [<-|Hin]; [|apply IH; now right].
      destruct (IH l (or_introl eq_refl)) as (body & Hb & [->| ->]).
      * exists (String a body). split; [|now left].
        rewrite lf_free_cons. now rewrite E, Hb.
      * exists (String a body). split; [|now right].
        rewrite lf_free_cons. now rewrite E, Hb.
Qed.

Lemma lf_free_strip_line (content raw : string) :
  In raw (file_lines content) -> lf_free (strip raw) = true.
Proof.
  intros Hin. destruct (file_lines_body _ _ Hin) as (body & Hb & [->| ->]).
  - unfold strip. rewrite rstrip_app_drop by reflexivity.
    now apply lf_free_lstrip, lf_free_rstrip.
  - now apply lf_free_strip.
Qed.

Lemma startswith_char (x c : ascii) (t : string) :
  startswith (String x "") (String c t) = Ascii.eqb x c.
Proof.
  unfold startswith. cbn [String.prefix]. destruct (ascii_dec x c) as [<-|N].
  - rewrite Ascii.eqb_refl. now destruct t.
  - symmetry. now apply Ascii.eqb_neq.
Qed.

Lemma split_once_parts (c : ascii) (s k v : string) :
  split_once c s = (k, Some v) ->
  s = k ++ String c v /\ contains (String c "") k = false.
Proof.
  revert k. induction s as [|a t IH]; intros k H; [discriminate|].
  cbn [split_once] in H. destruct (Ascii.eqb a c) eqn:E.
  - injection H as <- <-. apply Ascii.eqb_eq in E. subst a. auto.
  - destruct (split_once c t) as [k' v'] eqn:S. injection H as <- ->.
    destruct (IH k' eq_refl) as [-> Hk]. split; [reflexivity|].
    cbn [contains]. rewrite Hk, orb_false_r. simpl.
    destruct (ascii_dec c a) as [<-|]; [|reflexivity].
    now rewrite Ascii.eqb_refl in E.
Qed.

Lemma split_once_app (c : ascii) (k v : string) :
  contains (String c "") k = false -> split_once c (k ++ String c v) = (k, Some v).
Proof.
  induction k as [|a k IH]; intros H.
  - cbn. now rewrite Ascii.eqb_refl.
  - cbn [append split_once]. destruct (Ascii.eqb a c) eqn:E.
    + apply Ascii.eqb_eq in E. subst a. cbn [contains] in H.
      apply orb_false_iff in H as [H _]. simpl in H.
      destruct (ascii_dec c c); [destruct k; discriminate | contradiction].
    + rewrite IH; [reflexivity|]. now apply contains_cons_false in H.
Qed.

(** What a line gives is storable. *)
Lemma line_entry_storable (content raw : string) (kv : string * string) :
  In raw (file_lines content) -> line_entry raw = Some kv -> storable kv.
Proof.
  intros Hin. pose proof (lf_free_strip_line _ _ Hin) as Hlf.
  pose proof (tidy_strip raw) as [Hl _].
  unfold line_entry, accepted. destruct (strip raw) as [|c line] eqn:L; [discriminate|].
  cbn [truthy andb].
  destruct (startswith "#" (String c line)) eqn:Hs; [discriminate|]. cbn [negb andb].
  destruct (contains "=" (String c line)) eqn:Hc; [|discriminate].
  destruct (split_once "=" (String c line)) as [key [value|]] eqn:S; [|discriminate].
  intros [= <-]. destruct (split_once_parts _ _ _ _ S) as [Heq Hk].
  rewrite Heq, lf_free_app in Hlf. apply andb_true_iff in Hlf as [Hlk Hlv].
  cbn [lf_free] in Hlv. apply andb_true_iff in Hlv as [_ Hlv].
  unfold storable. cbn [fst snd].
  split; [apply tidy_strip|]. split; [apply tidy_strip|].
  split; [now apply lf_free_strip|]. split; [now apply lf_free_strip|].
  split; [now apply contains_char_strip|].
  destruct key as [|a key]; [reflexivity|].
  cbn [append] in Heq. assert (Hca : a = c) by congruence. subst a.
  destruct (strip_head c key (lstrip_fixed_head _ _ Hl)) as [r ->].
  rewrite startswith_char in *. exact Hs.
Qed.

(** A written line is read back as the pair it was written from. *)
Lemma line_entry_env_line (kv : string * string) :
  storable kv -> line_entry (env_line kv) = Some kv.
Proof.
  destruct kv as [k v]. unfold storable, env_line. cbn [fst snd].
  intros ([Hkl Hkr] & [Hvl Hvr] & _ & _ & Hke & Hks).
  assert (Hr : rstrip ("=" ++ v ++ nl) = "=" ++ v).
  { cbn [append rstrip]. rewrite rstrip_app_drop by reflexivity. rewrite Hvr.
    now destruct v. }
  assert (Hstrip : strip (k ++ "=" ++ v ++ nl) = k ++ "=" ++ v).
  { unfold strip. rewrite rstrip_app_keep by (rewrite Hr; discriminate).
    rewrite Hr. destruct k as [|c k]; [reflexivity|].
    cbn [append lstrip]. now rewrite (lstrip_fixed_head _ _ Hkl). }
  unfold line_entry. rewrite Hstrip.
  assert (Ha : accepted (k ++ "=" ++ v) = true).
  { unfold accepted. rewrite (contains_app_r "=" k ("=" ++ v) (contains_here "=" v)).
    rewrite andb_true_r. destruct k as [|c k]; [reflexivity|].
    cbn [append truthy andb]. rewrite startswith_char in *. now rewrite Hks. }
  rewrite Ha. change ("=" ++ v) with (String "=" v).
  rewrite (split_once_app "=" k v Hke).
  unfold strip. now rewrite Hkr, Hkl, Hvr, Hvl.
Qed.

Lemma file_lines_line (body rest : string) :
  lf_free body = true ->
  file_lines ((body ++ nl) ++ rest) = (body ++ nl) :: file_lines rest.
Proof.
  induction body as [|c b IH]; intros H; [reflexivity|].
  rewrite lf_free_cons in H. apply andb_true_iff in H as [Hc Hb].
  apply negb_true_iff in Hc.
  cbn [append file_lines]. rewrite Hc.
  change (b ++ nl ++ rest) with (b ++ (nl ++ rest)).
  replace (b ++ nl ++ rest) with ((b ++ nl) ++ rest) by apply append_assoc.
  now rewrite (IH Hb).
Qed.

Lemma concat_cons (x : string) (xs : list string) :
  String.concat "" (x :: xs) = x ++ String.concat "" xs.
Proof.
  destruct xs; cbn [String.concat]; [|reflexivity].
  induction x as [|c x IH]; [reflexivity|]. cbn [append]. now rewrite <- IH.
Qed.

Lemma file_lines_render (d : dict) :
  Forall storable d -> file_lines (render_env d) = written_lines d.
Proof.
  unfold render_env, written_lines. induction 1 as [|[k v] d Hkv _ IH]; [reflexivity|].
  cbn [map]. rewrite concat_cons. unfold env_line at 1 3. cbn [fst snd].
  destruct Hkv as (_ & _ & Hlk & Hlv & _). cbn [fst snd] in *.
  replace (k ++ "=" ++ v ++ nl) with ((k ++ "=" ++ v) ++ nl)
    by now rewrite !append_assoc.
  rewrite file_lines_line; [now rewrite IH|].
  now rewrite !lf_free_app, Hlk, Hlv.
Qed.

Lemma dict_set_fresh (k v : string) (d : dict) :
  dict_get k d = None -> dict_set k v d = (d ++ [(k, v)])%list.
Proof.
  induction d as [|[k' v'] r IH]; [reflexivity|]. cbn [dict_get dict_set app].
  destruct (String.eqb k' k); [discriminate|]. intros H. now rewrite IH.
Qed.

Lemma dict_set_same (k v : string) (d : dict) :
  dict_get k d = Some v -> dict_set k v d = d.
Proof.
  induction d as [|[k' v'] r IH]; [discriminate|]. cbn [dict_get dict_set].
  destruct (String.eqb k' k); [now intros [= ->]|]. intros H. now rewrite IH.
Qed.

Lemma dict_get_app_None (k : string) (a b : dict) :
  dict_get k (a ++ b)%list = None <-> dict_get k a = None /\ dict_get k b = None.
Proof.
  induction a as [|[k' v'] r IH]; cbn [app dict_get]; [tauto|].
  destruct (String.eqb k' k); [|exact IH]. split; [discriminate | tauto].
Qed.

Lemma fold_written (d acc : dict) :
  Forall storable d -> NoDup (keys d) ->
  (forall k, In k (keys d) -> dict_get k acc = None) ->
  fold_left parse_line (written_lines d) acc = (acc ++ d)%list.
Proof.
  intros Hs. revert acc. induction Hs as [|[k v] d Hkv _ IH]; intros acc Hn Hd.
  - cbn. now rewrite app_nil_r.
  - cbn [written_lines map fold_left]. rewrite parse_line_entry, (line_entry_env_line _ Hkv).
    cbn [keys map fst] in Hn, Hd. apply NoDup_cons_iff in Hn as [Hk Hn].
    rewrite dict_set_fresh by (apply Hd; now left).
    fold (written_lines d). rewrite IH; [now rewrite <- app_assoc | exact Hn |].
    intros k' Hin. apply dict_get_app_None. split; [apply Hd; now right|].
    cbn [dict_get]. destruct (String.eqb k k') eqn:E; [|reflexivity].
    apply String.eqb_eq in E. subst k'. contradiction.
Qed.

Lemma plain_tidy (s : string) : plain s = true -> tidy s /\ lf_free s = true.
Proof.
  induction s as [|c t IH]; [repeat split|]. cbn [plain]. intros H.
  apply andb_true_iff in H as [Hc Ht]. apply negb_true_iff in Hc.
  destruct (IH Ht) as [[_ Hr] Hl]. repeat split.
  - cbn [lstrip]. now rewrite Hc.
  - cbn [rstrip]. rewrite Hr. destruct t; [now rewrite Hc | reflexivity].
  - cbn [lf_free]. rewrite Hl, andb_true_r. apply negb_true_iff.
    destruct (Ascii.eqb c (ascii_of_nat 10)) eqn:E; [|reflexivity].
    apply Ascii.eqb_eq in E. subst c. discriminate.
Qed.

Lemma plain_app (a b : string) : plain (a ++ b) = plain a && plain b.
Proof.
  induction a as [|c a IH]; [reflexivity|]. cbn [append plain].
  now rewrite IH, andb_assoc.
Qed.

Lemma plain_str_N (n : N) : plain (str_N n) = true.
Proof.
  unfold str_N.
  assert (H : forall d, plain (NilEmpty.string_of_uint d) = true).
  { induction d; cbn [NilEmpty.string_of_uint plain]; try rewrite IHd; reflexivity. }
  destruct (N.to_uint n); try apply H. reflexivity.
Qed.

Lemma storable_backend (nat_port : N) :
  storable ("NAT_BACKEND_URL", nat_backend_url nat_port).
Proof.
  assert (Hp : plain (nat_backend_url nat_port) = true).
  { unfold nat_backend_url. rewrite plain_app, plain_str_N. reflexivity. }
  destruct (plain_tidy _ Hp) as [[Ht1 Ht2] Hl].
  unfold storable. cbn [fst snd]. repeat split; try assumption; reflexivity.
Qed.

Lemma storable_port (ui_port : N) : storable ("PORT", str_N ui_port).
Proof.
  destruct (plain_tidy _ (plain_str_N ui_port)) as [[Ht1 Ht2] Hl].
  unfold storable. cbn [fst snd]. repeat split; try assumption; reflexivity.
Qed.

Lemma Forall_dict_set (P : string * string -> Prop) (k v : string) (d : dict) :
  Forall P d -> P (k, v) -> Forall P (dict_set k v d).
Proof.
  intros Hd Hkv. apply Forall_forall. intros [k' v'] Hin.
  destruct (In_dict_set _ _ _ _ _ Hin) as [->|H]; [exact Hkv|].
  rewrite Forall_forall in Hd. now apply Hd.
Qed.

Lemma read_env_storable (env_file : option string) : Forall storable (read_env env_file).
Proof.
  destruct env_file as [content|]; [|constructor].
  apply Forall_forall. intros [k v] Hin. unfold read_env, env_from_lines in Hin.
  destruct (fold_parse_origin _ _ _ _ Hin) as [[]|(raw & Hr & He)].
  eapply line_entry_storable; eauto.
Qed.

Lemma final_env_storable (env_file : option string) (nat_port ui_port : N) :
  Forall storable (final_env env_file nat_port ui_port).
Proof.
  unfold final_env, update_env.
  pose proof (Forall_dict_set storable _ _ _ (read_env_storable env_file)
                (storable_backend nat_port)) as H.
  destruct (dict_mem "PORT" _); [exact H|].
  apply Forall_dict_set; [exact H | apply storable_port].
Qed.

Lemma update_env_has_port (url : string) (ui_port : N) (d : dict) :
  dict_mem "PORT" (update_env url ui_port d) = true.
Proof.
  unfold update_env.
  destruct (dict_mem "PORT" (dict_set "NAT_BACKEND_URL" url d)) eqn:E; [exact E|].
  unfold dict_mem. now rewrite dict_get_set_same.
Qed.

Lemma update_env_fixed (url : string) (ui_port : N) (d : dict) :
  update_env url ui_port (update_env url ui_port d) = update_env url ui_port d.
Proof.
  unfold update_env at 1.
  rewrite (dict_set_same _ _ _ (update_env_backend url ui_port d)).
  now rewrite update_env_has_port.
Qed.

End EnvRoundTrip.

(** X21: the [.env] file written by [start()] reads back as the dict it
    was written from, so configuring again changes nothing: a second
    [start()] with the same ports rewrites [.env] to the same content. *)
Theorem env_rewrite_idempotent (env_file : option string) (nat_port ui_port : N) :
  read_env (Some (configure_env env_file nat_port ui_port)) =
    final_env env_file nat_port ui_port /\
  configure_env (Some (configure_env env_file nat_port ui_port)) nat_port ui_port =
    configure_env env_file nat_port ui_port.
Proof.
  assert (Hread : read_env (Some (configure_env env_file nat_port ui_port)) =
                  final_env env_file nat_port ui_port).
  { unfold configure_env, read_env at 1, env_from_lines.
    rewrite file_lines_render by apply final_env_storable.
    rewrite fold_written; [reflexivity | apply final_env_storable | |auto].
    apply update_env_NoDup, read_env_NoDup. }
  split; [exact Hread|].
  unfold configure_env at 1, final_env at 1. rewrite Hread.
  unfold configure_env, final_env. now rewrite update_env_fixed.
Qed.

(** X22: the rewrite keeps the keys of the old file in their order; the
    two required keys are added after them, [NAT_BACKEND_URL] before
    [PORT], each only when the file did not have it. *)
Theorem env_rewrite_key_order (env_file : option string) (nat_port ui_port : N) :
  let old := read_env env_file in
  keys (final_env env_file nat_port ui_port) =
    (keys old ++
     (if dict_mem "NAT_BACKEND_URL" old then [] else ["NAT_BACKEND_URL"]) ++
     (if dict_mem "PORT" old then [] else ["PORT"]))%list.
Proof.
  intros old. unfold final_env, update_env. fold old.
  assert (Hp : dict_mem "PORT" (dict_set "NAT_BACKEND_URL" (nat_backend_url nat_port) old)
               = dict_mem "PORT" old).
  { unfold dict_mem. now rewrite dict_get_set_other by discriminate. }
  rewrite Hp. destruct (dict_mem "PORT" old) eqn:P.
  - rewrite keys_dict_set. destruct (dict_mem "NAT_BACKEND_URL" old);
      now rewrite ?app_nil_r.
  - rewrite keys_dict_set, Hp, keys_dict_set.
    destruct (dict_mem "NAT_BACKEND_URL" old); now rewrite ?app_nil_r, <- ?app_assoc.
Qed.
